(** * tar_checkpoints: moving checkpoint files into one tar archive

    A shallow embedding of [tar_checkpoints.py].  The module moves files
    into a tar archive from a background process fed by a [JoinableQueue],
    and extracts the files of one epoch back out of the archive.

    Data.  Python strings are [string], integers are [Z], file contents are
    lists of bytes.  The filesystem is a finite map from paths to the
    contents of the regular files other than the archive, together with the
    set of directories.  The archive is kept apart: the list of its
    members, oldest first, and what the file at [tar_fp] looks like after
    them (whether it is there, and how many blocks of zeros end it).  A tar
    file may hold several members of one name, and extraction writes them
    one after the other.

    Effects.  The functions of the module are computations over the state
    of the machine that return, raise, or block for ever.  The two
    processes are interleaved by hand: the background process advances by
    turns ([daemon_turn]: opening the archive, then one iteration of its
    loop per turn), and the places where the caller's code lets it run take
    the number of turns as a parameter.

    What is taken for granted:
    - a path names one file, and two paths name two files: no links, no
      second spelling of a path;
    - the paths given to [tar_files] do not name directories, and the
      members of an archive are regular files;
    - what is written to the archive is on the disk at once;
    - nothing writes to the path of the archive but the module itself
      (neither the caller's code nor an extraction that lands on it);
    - [extract] is given the path of the machine's archive. *)

From Stdlib Require Import ZArith Ascii String List Lia.
From stdpp Require Import base option list gmap strings pretty.

Open Scope string_scope.
Open Scope list_scope.

#[local] Arguments String.append !_ _ / : simpl nomatch.

(** ** Strings and paths: the parts of [str], [format] and [os.path] used *)

Module os_path.

(** [s.rfind(c)]: index of the last occurrence, [-1] when there is none.
    [rfind_from c s i] scans [s], whose first character has index [i]. *)
Fixpoint rfind_from (c : ascii) (s : string) (i : Z) : Z :=
  match s with
  | EmptyString => (-1)%Z
  | String a r =>
      let j := rfind_from c r (i + 1)%Z in
      if (0 <=? j)%Z then j else if Ascii.eqb a c then i else (-1)%Z
  end.

Definition rfind (c : ascii) (s : string) : Z := rfind_from c s 0.

(** [s[i:]] and [s[:i]] for [0 <= i]. *)
Fixpoint drop (i : nat) (s : string) : string :=
  match i, s with
  | O, _ => s
  | S _, EmptyString => EmptyString
  | S i', String _ r => drop i' r
  end.

Fixpoint take (i : nat) (s : string) : string :=
  match i, s with
  | O, _ => EmptyString
  | S _, EmptyString => EmptyString
  | S i', String a r => String a (take i' r)
  end.

(** [s.startswith(p)] and [s.endswith("/")]. *)
Definition startswith (s p : string) : bool := String.prefix p s.

Fixpoint ends_with_sep (s : string) : bool :=
  match s with
  | EmptyString => false
  | String a EmptyString => Ascii.eqb a "/"
  | String _ r => ends_with_sep r
  end.

(** [posixpath.basename]: [i = p.rfind('/') + 1; return p[i:]]. *)
Definition basename (p : string) : string :=
  let i := (rfind "/" p + 1)%Z in
  drop (Z.to_nat i) p.

(** Is there a character other than [.] in [s]?  This is the scan of
    [genericpath._splitext] over the leading characters of the file name. *)
Fixpoint has_non_dot (s : string) : bool :=
  match s with
  | EmptyString => false
  | String a r => negb (Ascii.eqb a ".") || has_non_dot r
  end.

(** [posixpath.splitext]: split at the last dot of the last component,
    unless that component consists of leading dots up to there. *)
Definition splitext (p : string) : string * string :=
  let sepIndex := rfind "/" p in
  let dotIndex := rfind "." p in
  if (sepIndex <? dotIndex)%Z
     && has_non_dot (take (Z.to_nat (dotIndex - (sepIndex + 1)))
                          (drop (Z.to_nat (sepIndex + 1)) p))
  then (take (Z.to_nat dotIndex) p, drop (Z.to_nat dotIndex) p)
  else (p, EmptyString).

(** [posixpath.join(a, b)] for two components. *)
Definition join (a b : string) : string :=
  if startswith b "/" then b
  else if String.eqb a "" || ends_with_sep a then a +:+ b
  else a +:+ "/" +:+ b.

(** The directories [os.makedirs] has to provide for a file at [p]: every
    proper prefix of [p] that ends just before a separator.  [pre] is the
    part of the path already scanned. *)
Fixpoint parents_from (pre p : string) : list string :=
  match p with
  | EmptyString => []
  | String a r =>
      if Ascii.eqb a "/"
      then (if String.eqb pre "" then [] else [pre])
             ++ parents_from (pre +:+ "/") r
      else parents_from (pre +:+ String a EmptyString) r
  end.

Definition parents (p : string) : list string := parents_from "" p.

(** [p.rstrip("/")] for at most one trailing separator, as [os.path.isdir]
    sees the path returned by [extract]. *)
Fixpoint strip_sep (p : string) : string :=
  match p with
  | EmptyString => EmptyString
  | String a EmptyString => if Ascii.eqb a "/" then EmptyString else p
  | String a r => String a (strip_sep r)
  end.

(** [p.rstrip("/")]: all the trailing separators go. *)
Fixpoint rstrip (p : string) : string :=
  match p with
  | EmptyString => EmptyString
  | String a r =>
      match rstrip r with
      | EmptyString =>
          if Ascii.eqb a "/" then EmptyString else String a EmptyString
      | r' => String a r'
      end
  end.

End os_path.

(** [f"{epoch:05d}"]: decimal digits, sign first, then zeros up to a total
    width of five characters. *)
Fixpoint zeros (n : nat) : string :=
  match n with
  | O => EmptyString
  | S n' => String "0" (zeros n')
  end.

Definition format_05d (epoch : Z) : string :=
  let digits := pretty (Z.abs_N epoch) in
  if (epoch <? 0)%Z
  then "-" +:+ zeros (4 - String.length digits) +:+ digits
  else zeros (5 - String.length digits) +:+ digits.


(** ** Data model *)

Definition bytes := list Byte.byte.

(** [class Task(TypedDict)]: the keyword arguments of [add_files]. *)
Record Task := { epoch : Z; files : list string }.

(** What travels on the queue: a [Task] dictionary or a string (the
    terminal condition is the string ["break"]). *)
Inductive pyobj :=
  | PStr (s : string)
  | PDict (t : Task).

(** [task == "break"]: a dictionary never equals a string. *)
Definition py_eq (a b : pyobj) : bool :=
  match a, b with
  | PStr s1, PStr s2 => String.eqb s1 s2
  | PDict t1, PDict t2 =>
      Z.eqb (epoch t1) (epoch t2)
      && bool_decide (files t1 = files t2)
  | _, _ => false
  end.

(** A member of the archive: its name in the archive and its content. *)
Record TarInfo := { name : string; data : bytes }.

Inductive exn :=
  | Exception (msg : string)
  | FileNotFoundError (path : string)
  | NotADirectoryError
  | IsADirectoryError
  | ReadError
  | TypeError
  | ValueError
  | AttributeError.

(** The background process ([multiprocessing.Process]).  [Starting] is the
    process before it has opened the archive.  [Exiting] is the process
    after [add_files_daemon] has returned and before it is gone.  [Dying]
    is the process after [kill()] has sent it the signal and before the
    signal has taken effect.  [is_alive()] answers [True] in all of these:
    it only looks whether the child has ended. *)
Inductive status :=
  | Starting
  | Running
  | Exiting
  | Returned
  | Crashed (e : exn)
  | Dying
  | Killed.

#[global] Instance exn_eq_dec : EqDecision exn.
Proof. solve_decision. Defined.
#[global] Instance status_eq_dec : EqDecision status.
Proof. solve_decision. Defined.

Definition alive (st : status) : bool :=
  match st with
  | Starting | Running | Exiting | Dying => true
  | Returned | Crashed _ | Killed => false
  end.

(** [JoinableQueue]: the items not yet taken, and the count of items put
    and not yet acknowledged by [task_done]. *)
Record JoinableQueue := { items : list pyobj; unfinished : nat }.

(** What happened in the current session, in order (ghost state). *)
Inductive event :=
  | EvPut (x : pyobj)
  | EvGet (x : pyobj)
  | EvAdd (m : TarInfo)
  | EvRemove (file : string)
  | EvClose
  | EvDone (x : pyobj)
  | EvExtract (m : TarInfo) (path : string)
  | EvKill.

(** The machine: filesystem, archive at [tar_fp], and the fields of the
    [TarCheckpoints] object.

    The archive file is made of blocks of 512 bytes: the members, then
    blocks of zeros.  [tar] lists the members; it is empty when there is no
    file.  [tar_pad] is [None] when there is no file at [tar_fp], and
    otherwise the number of blocks of zeros after the members.
    [tar_blocks] gives the number of blocks a member takes, headers
    included; it depends on more than the model knows of a file (its times,
    its owner), so it is a parameter of the machine.

    [self.queue] and [self.daemon] are assigned together ([None] in
    [__init__], fresh objects in [__enter__]); [daemon] is [None] exactly
    when both are, and [queue] is meaningful otherwise. *)
Record World := {
  fs : gmap string bytes;
  dirs : gset string;
  tar : list TarInfo;
  tar_pad : option nat;
  tar_blocks : TarInfo → nat;
  tar_fp : string;
  queue : JoinableQueue;
  daemon : option status;
  trace : list event
}.

Definition with_fs (f : gmap string bytes) (w : World) : World :=
  {| fs := f; dirs := dirs w; tar := tar w; tar_pad := tar_pad w;
     tar_blocks := tar_blocks w; tar_fp := tar_fp w;
     queue := queue w; daemon := daemon w; trace := trace w |}.
Definition with_dirs (d : gset string) (w : World) : World :=
  {| fs := fs w; dirs := d; tar := tar w; tar_pad := tar_pad w;
     tar_blocks := tar_blocks w; tar_fp := tar_fp w;
     queue := queue w; daemon := daemon w; trace := trace w |}.
Definition with_tar (t : list TarInfo) (w : World) : World :=
  {| fs := fs w; dirs := dirs w; tar := t; tar_pad := tar_pad w;
     tar_blocks := tar_blocks w; tar_fp := tar_fp w;
     queue := queue w; daemon := daemon w; trace := trace w |}.
Definition with_pad (n : option nat) (w : World) : World :=
  {| fs := fs w; dirs := dirs w; tar := tar w; tar_pad := n;
     tar_blocks := tar_blocks w; tar_fp := tar_fp w;
     queue := queue w; daemon := daemon w; trace := trace w |}.
Definition with_queue (q : JoinableQueue) (w : World) : World :=
  {| fs := fs w; dirs := dirs w; tar := tar w; tar_pad := tar_pad w;
     tar_blocks := tar_blocks w; tar_fp := tar_fp w;
     queue := q; daemon := daemon w; trace := trace w |}.
Definition with_daemon (d : option status) (w : World) : World :=
  {| fs := fs w; dirs := dirs w; tar := tar w; tar_pad := tar_pad w;
     tar_blocks := tar_blocks w; tar_fp := tar_fp w;
     queue := queue w; daemon := d; trace := trace w |}.
Definition with_trace (t : list event) (w : World) : World :=
  {| fs := fs w; dirs := dirs w; tar := tar w; tar_pad := tar_pad w;
     tar_blocks := tar_blocks w; tar_fp := tar_fp w;
     queue := queue w; daemon := daemon w; trace := t |}.
Definition log (e : event) (w : World) : World :=
  with_trace (trace w ++ [e]) w.

(** ** Computations: state, exceptions, and blocking for ever *)

Inductive result (A : Type) :=
  | Ok (a : A) (w : World)
  | Raise (e : exn) (w : World)
  | Hang (w : World).
Arguments Ok {A} a w.
Arguments Raise {A} e w.
Arguments Hang {A} w.

Definition M (A : Type) : Type := World → result A.

#[global] Instance M_ret : MRet M := λ A a w, Ok a w.
#[global] Instance M_bind : MBind M := λ A B f m w,
  match m w with
  | Ok a w' => f a w'
  | Raise e w' => Raise e w'
  | Hang w' => Hang w'
  end.

Definition raise {A} (e : exn) : M A := λ w, Raise e w.

(** [for x in l: body]. *)
Fixpoint for_ {A} (l : list A) (body : A → M unit) : M unit :=
  match l with
  | [] => mret tt
  | x :: l' => body x ;; for_ l' body
  end.

(** ** The library calls *)

(** Is there a regular file at [p]?  The archive is one when it is there. *)
Definition is_file (w : World) (p : string) : bool :=
  bool_decide (is_Some (fs w !! p))
  || (bool_decide (p = tar_fp w) && bool_decide (is_Some (tar_pad w))).

(** What [open(p, "w")] raises, if anything: a regular file in the place of
    a directory on the way, a directory on the way that is not there, or a
    directory at [p] itself. *)
Definition open_w (p : string) (w : World) : option exn :=
  let upperdirs := os_path.parents p in
  if existsb (is_file w) upperdirs then Some NotADirectoryError
  else if negb (forallb (λ a, bool_decide (a ∈ dirs w)) upperdirs)
  then Some (FileNotFoundError p)
  else if bool_decide (p ∈ dirs w) then Some IsADirectoryError
  else if String.eqb p "" then Some (FileNotFoundError p)
  else None.

(** [with open(p, "w") as file: file.write(c)], for a file other than the
    archive: the file holds [c], whatever it held before. *)
Definition write_file (p : string) (c : bytes) : M unit := λ w,
  match open_w p w with
  | Some e => Raise e w
  | None => Ok tt (with_fs (<[p := c]> (fs w)) w)
  end.

(** [tarfile.open(tar_fp, "a:")].  A file that is not there is created,
    empty.  A file that is there is read up to the first block of zeros;
    when it has none, the end of the file is met instead and the call
    raises. *)
Definition tarfile_open_a : M unit := λ w,
  match tar_pad w with
  | None =>
      match open_w (tar_fp w) w with
      | Some e => Raise e w
      | None => Ok tt (with_pad (Some 0) w)
      end
  | Some O => Raise ReadError w
  | Some (S _) => Ok tt w
  end.

(** [tarfile.open(tar_fp)] followed by [tarf.getmembers()].  Reading stops
    at a block of zeros or at the end of the file; only a file without any
    block is refused. *)
Definition tarfile_open_r (tar_fp : string) : M (list TarInfo) := λ w,
  match tar_pad w with
  | None => Raise (FileNotFoundError tar_fp) w
  | Some O =>
      match tar w with
      | [] => Raise ReadError w
      | _ => Ok (tar w) w
      end
  | Some (S _) => Ok (tar w) w
  end.

(** [tarf.add(name=file, arcname=archname)].  The archive itself is
    skipped.  Any other file is read and written at the end of the members,
    over the zeros that were there; a missing file raises.  If the archive
    has been removed from the filesystem in the meantime, what is written
    is lost. *)
Definition tarf_add (file arcname : string) : M unit := λ w,
  if decide (file = tar_fp w) then Ok tt w
  else
    match fs w !! file with
    | Some c =>
        let m := {| name := arcname; data := c |} in
        Ok tt (log (EvAdd m)
                 (match tar_pad w with
                  | Some n =>
                      with_pad (Some (n - tar_blocks w m))
                        (with_tar (tar w ++ [m]) w)
                  | None => w
                  end))
    | None => Raise (FileNotFoundError file) w
    end.

(** [os.remove(file)]. *)
Definition os_remove (file : string) : M unit := λ w,
  if decide (file = tar_fp w) then
    match tar_pad w with
    | Some _ => Ok tt (log (EvRemove file) (with_pad None (with_tar [] w)))
    | None => Raise (FileNotFoundError file) w
    end
  else
    match fs w !! file with
    | Some _ => Ok tt (log (EvRemove file) (with_fs (delete file (fs w)) w))
    | None => Raise (FileNotFoundError file) w
    end.

(** [queue.put(x)]; on a controller that was never entered [self.queue] is
    [None]. *)
Definition queue_put (x : pyobj) : M unit := λ w,
  match daemon w with
  | None => Raise AttributeError w
  | Some _ =>
      let q := queue w in
      Ok tt (log (EvPut x)
               (with_queue {| items := items q ++ [x];
                              unfinished := S (unfinished q) |} w))
  end.

(** [queue.task_done()], called by the consumer for the item [x] it took. *)
Definition queue_task_done (x : pyobj) : M unit := λ w,
  match unfinished (queue w) with
  | O => Raise ValueError w
  | S n =>
      Ok tt (log (EvDone x)
               (with_queue {| items := items (queue w); unfinished := n |} w))
  end.

(** The blocks of zeros that [close()] writes after [off] blocks of
    members: two, and as many as fill the record of twenty blocks. *)
Definition end_blocks (off : nat) : nat := 2 + (20 - (off + 2) mod 20) mod 20.

Definition tar_size (w : World) : nat :=
  sum_list (map (tar_blocks w) (tar w)).

(** Leaving [with tarfile.open(tar_fp, "a:") as tarf] without an exception:
    [close()] writes the blocks of zeros after the members; zeros that
    were there further on stay. *)
Definition tarf_close (w : World) : World :=
  log EvClose
    (match tar_pad w with
     | Some n => with_pad (Some (Nat.max n (end_blocks (tar_size w)))) w
     | None => w
     end).

(** Where [tarf.extract(m, path)] puts the member. *)
Definition target (path : string) (m : TarInfo) : string :=
  os_path.rstrip (os_path.join path (name m)).

(** [tarf.extract(m, path)]: make the directories on the way, then write
    the file.  A regular file in the place of one of these directories, or
    a directory in the place of the file, makes it raise. *)
Definition tarf_extract (m : TarInfo) (path : string) : M unit := λ w,
  let targetpath := target path m in
  let upperdirs := os_path.parents targetpath in
  if existsb (is_file w) upperdirs then Raise NotADirectoryError w
  else
    let w1 := with_dirs (dirs w ∪ list_to_set upperdirs) w in
    if bool_decide (targetpath ∈ dirs w1) then Raise IsADirectoryError w1
    else if String.eqb targetpath "" then Raise (FileNotFoundError "") w1
    else Ok tt (log (EvExtract m path)
                  (with_fs (<[targetpath := data m]> (fs w1)) w1)).

(** [os.path.isdir(p)]. *)
Definition isdir (w : World) (p : string) : bool :=
  bool_decide (os_path.strip_sep p ∈ dirs w).

(** ** [add_files] *)

Definition archname (epoch : Z) (file : string) : string :=
  format_05d epoch +:+ "/" +:+ os_path.basename file.

Definition add_files (epoch : Z) (files : list string) : M unit :=
  for_ files (λ file,
    let archname := archname epoch file in
    tarf_add file archname ;;
    os_remove file).

(** ** [add_files_daemon] *)

Definition sentinel : pyobj := PStr "break".

(** [add_files(tarf, **task)]: a string is not a mapping. *)
Definition add_files_kw (task : pyobj) : M unit :=
  match task with
  | PDict t => add_files (epoch t) (files t)
  | PStr _ => raise TypeError
  end.

Inductive control := Continue | Break.

(** The body of [while True], once [queue.get(True)] has returned [task]. *)
Definition daemon_iteration (task : pyobj) : M control :=
  if py_eq task (PStr "break") then mret Break
  else
    add_files_kw task ;;
    queue_task_done task ;;
    mret Continue.

Definition queue_get (w : World) : option (pyobj * World) :=
  match items (queue w) with
  | [] => None
  | x :: rest =>
      Some (x, log (EvGet x)
                 (with_queue {| items := rest;
                                unfinished := unfinished (queue w) |} w))
  end.

(** One turn of the background process.  The first turn opens the archive;
    if that raises, the process ends there.  After that a turn is one
    iteration of the loop when an item is there, and nothing while
    [queue.get(True)] blocks.  On [break] the [with] block closes the
    archive, then the last [queue.task_done()] runs and the function
    returns.  An exception leaves the [with] block without [close()]: the
    file is left as it is, without the blocks of zeros, and the process
    ends.  A process that was sent the kill signal ends at its next
    turn. *)
Definition daemon_turn (w : World) : World :=
  match daemon w with
  | Some Starting =>
      match tarfile_open_a w with
      | Ok _ w1 => with_daemon (Some Running) w1
      | Raise e w1 => with_daemon (Some (Crashed e)) w1
      | Hang w1 => w1
      end
  | Some Running =>
      match queue_get w with
      | None => w
      | Some (task, w1) =>
          match daemon_iteration task w1 with
          | Ok Continue w2 => w2
          | Ok Break w2 =>
              match queue_task_done task (tarf_close w2) with
              | Ok _ w3 => with_daemon (Some Exiting) w3
              | Raise e w3 => with_daemon (Some (Crashed e)) w3
              | Hang w3 => w3
              end
          | Raise e w2 => with_daemon (Some (Crashed e)) w2
          | Hang w2 => w2
          end
      end
  | Some Exiting => with_daemon (Some Returned) w
  | Some Dying => with_daemon (Some Killed) w
  | _ => w
  end.

(** The background process takes [n] turns while the caller goes on. *)
Definition concurrently (n : nat) : M unit := λ w,
  Ok tt (Nat.iter n daemon_turn w).

(** ** [TarCheckpoints] *)

(** The blocks of a member as [tarfile] writes it by default: an extended
    header of two blocks, the header, and the content. *)
Definition pax_blocks (m : TarInfo) : nat :=
  3 + (length (data m) + 511) / 512.

(** [TarCheckpoints(tar_fp)] on a machine with the files [f], the
    directories [d] and, at [tar_fp], an archive of the members [t] as
    [tarfile] closes it; no file when [t] is empty. *)
Definition __init__ (tar_fp : string) (f : gmap string bytes)
    (d : gset string) (t : list TarInfo) : World :=
  {| fs := f; dirs := d; tar := t;
     tar_pad := match t with
                | [] => None
                | _ => Some (end_blocks (sum_list (map pax_blocks t)))
                end;
     tar_blocks := pax_blocks; tar_fp := tar_fp;
     queue := {| items := []; unfinished := 0 |};
     daemon := None; trace := [] |}.

(** [__enter__]: a fresh queue and a started process. *)
Definition __enter__ (w : World) : World :=
  with_trace []
    (with_daemon (Some Starting)
       (with_queue {| items := []; unfinished := 0 |} w)).

Definition is_alive : M bool := λ w,
  match daemon w with
  | None => Raise AttributeError w
  | Some st => Ok (alive st) w
  end.

(** [queue.join()]: the caller waits while the background process runs,
    until no item is unfinished.  The process opens the archive in one
    turn and takes at most one item per turn after that, so if the count is
    not zero after one turn more than there are items, it never will be. *)
Fixpoint join_turns (n : nat) (w : World) : result unit :=
  if Nat.eqb (unfinished (queue w)) 0 then Ok tt w
  else match n with
       | O => Hang w
       | S n' => join_turns n' (daemon_turn w)
       end.

Definition queue_join : M unit := λ w,
  join_turns (S (length (items (queue w)))) w.

(** [daemon.kill()]: the signal is sent; the process is gone only once it
    has taken effect. *)
Definition daemon_kill : M unit := λ w,
  match daemon w with
  | None => Raise AttributeError w
  | Some st =>
      Ok tt (log EvKill
               (with_daemon (Some (if alive st then Dying else st)) w))
  end.

Definition usage_error : exn :=
  Exception "This method can only be used inside a TarCheckpoints context.".

(** [_await_queue].  [k] and [j] are the turns the background process
    takes between [put] and [is_alive()], and between the return of
    [join()] and [kill()]. *)
Definition _await_queue (k j : nat) : M unit :=
  queue_put (PStr "break") ;;
  concurrently k ;;
  a ← is_alive ;
  if a : bool then
    queue_join ;;
    concurrently j ;;
    daemon_kill
  else raise (Exception "Something is wrong").

(** [__exit__(exc_type, exc_value, exc_tb)]: [exc] is the exception that
    left the body, if any; it is not looked at. *)
Definition __exit__ (exc : option exn) (k j : nat) : M unit :=
  _await_queue k j.

(** [tar_files(epoch, filepaths)]; a bare [raise Exception] carries no
    message. *)
Definition tar_files (epoch : Z) (filepaths : list string) : M unit := λ w,
  match daemon w with
  | None => Raise usage_error w
  | Some st =>
      if negb (alive st) then Raise (Exception "") w
      else
        let task := PDict {| epoch := epoch; files := filepaths |} in
        queue_put task w
  end.

(** [extract(tar_fp, epoch, path=None)].  The machine holds one archive,
    and [tar_fp] is its path. *)
Definition extract (tar_fp : string) (epoch : Z) (path : option string)
    : M string :=
  members ← tarfile_open_r tar_fp ;
  let epoch_str := format_05d epoch +:+ "/" in
  let selected_members :=
    List.filter (λ m, os_path.startswith (name m) epoch_str) members in
  let path := match path with
              | None => fst (os_path.splitext (os_path.basename tar_fp))
              | Some p => p
              end in
  for_ selected_members (λ m, tarf_extract m path) ;;
  mret (os_path.join path epoch_str).

(** ** The [with] statement *)

(** What the body of [with TarCheckpoints(tar_fp) as tar_files:] does, as
    far as this module is concerned: it writes files, it calls
    [tar_files], and time passes, during which the background process
    runs. *)
Inductive stmt :=
  | Call (epoch : Z) (filepaths : list string)
  | Write (path : string) (content : bytes)
  | Yield.

Definition exec (s : stmt) : M unit :=
  match s with
  | Call epoch filepaths => tar_files epoch filepaths
  | Write path content => write_file path content
  | Yield => concurrently 1
  end.

Definition run_body (body : list stmt) : M unit := for_ body exec.

(** [with TarCheckpoints(tar_fp) as tar_files: body], where the body, after
    its statements, may raise an exception [exc] of its own.  [__exit__]
    returns [None], so an exception of the body is raised again after it. *)
Definition with_TarCheckpoints (body : list stmt) (exc : option exn)
    (k j : nat) : M unit := λ w,
  match (run_body body ;;
         match exc with Some e => raise e | None => mret tt end)
          (__enter__ w) with
  | Ok _ w' => __exit__ None k j w'
  | Raise e w' =>
      match __exit__ (Some e) k j w' with
      | Ok _ w'' => Raise e w''
      | r => r
      end
  | Hang w' => Hang w'
  end.

(** ** Schedules *)

(** Whatever the module itself does to the machine during a session is a
    sequence of these steps. *)
Inductive action :=
  | Turn
  | Put (x : pyobj)
  | Kill.

Definition world_of {A} (r : result A) : World :=
  match r with
  | Ok _ w | Raise _ w | Hang w => w
  end.

Definition act (w : World) (a : action) : World :=
  match a with
  | Turn => daemon_turn w
  | Put x => world_of (queue_put x w)
  | Kill => world_of (daemon_kill w)
  end.

Definition run (acts : list action) (w : World) : World := foldl act w acts.

(** * Properties *)

(** ** Strings *)

Section strings.

Lemma append_assoc (a b c : string) : (a +:+ b) +:+ c = a +:+ (b +:+ c).
Proof. induction a as [|x a IH]; cbn; [done | by f_equal]. Qed.

Lemma append_nil_r (a : string) : a +:+ "" = a.
Proof. induction a as [|x a IH]; cbn; [done | by f_equal]. Qed.

Lemma length_append (a b : string) :
  String.length (a +:+ b) = String.length a + String.length b.
Proof. induction a as [|x a IH]; cbn; [done | by f_equal]. Qed.

Lemma append_inv_r (a b c : string) : a +:+ c = b +:+ c → a = b.
Proof.
  revert b. induction a as [|x a IH]; intros [|y b] H; simpl in *.
  - done.
  - apply (f_equal String.length) in H. simpl in H.
    rewrite length_append in H. lia.
  - apply (f_equal String.length) in H. simpl in H.
    rewrite length_append in H. lia.
  - injection H as -> H. f_equal. by apply IH.
Qed.


(** The characters of a decimal numeral. *)
Definition digit (a : ascii) : bool :=
  ((48 <=? nat_of_ascii a) && (nat_of_ascii a <=? 57))%nat.

Fixpoint digits (s : string) : bool :=
  match s with
  | EmptyString => true
  | String a r => digit a && digits r
  end.

Lemma digits_append (a b : string) :
  digits (a +:+ b) = digits a && digits b.
Proof.
  induction a as [|x a IH]; simpl; [done |].
  by rewrite IH, andb_assoc.
Qed.


Lemma length_zeros (n : nat) : String.length (zeros n) = n.
Proof. induction n; simpl; auto. Qed.

Lemma pretty_N_char_digit (x : N) : digit (pretty_N_char x) = true.
Proof. unfold pretty_N_char. by repeat case_match. Qed.

Lemma pretty_N_char_nonzero (x : N) :
  (0 < x < 10)%N → pretty_N_char x ≠ "0"%char.
Proof.
  intros Hx.
  assert (x = 1 ∨ x = 2 ∨ x = 3 ∨ x = 4 ∨ x = 5 ∨ x = 6
          ∨ x = 7 ∨ x = 8 ∨ x = 9)%N as Hc by lia.
  destruct Hc as [->|[->|[->|[->|[->|[->|[->|[->| ->]]]]]]]]; done.
Qed.

(** A positive number prints as a digit other than [0] followed by
    digits. *)
Lemma pretty_N_go_shape (x : N) (s : string) :
  (0 < x)%N →
  ∃ a r, pretty_N_go x s = String a (r +:+ s)
         ∧ digit a = true ∧ a ≠ "0"%char ∧ digits r = true.
Proof.
  revert s. induction (N.lt_wf_0 x) as [x _ IH]. intros s Hx.
  rewrite pretty_N_go_step by done.
  destruct (decide (x `div` 10 = 0)%N) as [Hz|Hnz].
  - rewrite Hz, pretty_N_go_0.
    assert (x < 10)%N by (apply N.div_small_iff in Hz; lia).
    exists (pretty_N_char (x `mod` 10)), "". simpl.
    rewrite N.mod_small by done.
    split_and!; auto using pretty_N_char_digit, pretty_N_char_nonzero.
  - destruct (IH (x `div` 10)%N) with
      (s := String (pretty_N_char (x `mod` 10)) s)
      as (a & r & Heq & Ha & Hnz' & Hr).
    { apply N.div_lt; lia. }
    { by apply N.neq_0_lt_0. }
    exists a, (r +:+ String (pretty_N_char (x `mod` 10)) "").
    rewrite Heq, append_assoc. simpl.
    split_and!; auto.
    rewrite digits_append, Hr. simpl.
    by rewrite pretty_N_char_digit.
Qed.

Lemma pretty_N_shape (n : N) :
  ∃ a r, pretty n = String a r ∧ digit a = true ∧ digits r = true
         ∧ (a = "0"%char → n = 0%N).
Proof.
  unfold pretty, pretty_N. case_decide as Hn.
  - exists "0"%char, "". by subst.
  - destruct (pretty_N_go_shape n "") as (a & r & Heq & Ha & Hnz & Hr);
      [lia |].
    exists a, r. rewrite Heq, append_nil_r. by split_and!.
Qed.


(** Leading zeros do not change which number was printed. *)
Lemma zeros_pretty_inj (k1 k2 : nat) (n1 n2 : N) :
  zeros k1 +:+ pretty n1 = zeros k2 +:+ pretty n2 → n1 = n2.
Proof.
  assert (∀ k (n m : N),
            pretty n = String "0" (zeros k +:+ pretty m) → False)
    as Hlead.
  { intros k n m Heq.
    destruct (pretty_N_shape n) as (a & r & Hn & _ & _ & Hz).
    rewrite Hn in Heq. injection Heq as -> ->.
    rewrite Hz in Hn by done. injection Hn as Hn.
    destruct (pretty_N_shape m) as (b & r' & Hm & _).
    rewrite Hm in Hn. by destruct k. }
  revert k2. induction k1 as [|k1 IH]; intros [|k2]; simpl; intros Heq.
  - by apply (inj pretty).
  - by destruct (Hlead k2 n1 n2).
  - by destruct (Hlead k1 n2 n1).
  - injection Heq as Heq. eauto.
Qed.

Lemma format_05d_nonneg (e : Z) :
  (0 ≤ e)%Z →
  format_05d e
  = zeros (5 - String.length (pretty (Z.to_N e))) +:+ pretty (Z.to_N e).
Proof.
  intros He. unfold format_05d.
  destruct (Z.ltb_spec e 0); [lia |].
  replace (Z.abs_N e) with (Z.to_N e) by lia. done.
Qed.

Lemma format_05d_inj : Inj (=) (=) format_05d.
Proof.
  intros e1 e2. unfold format_05d.
  destruct (Z.ltb_spec e1 0), (Z.ltb_spec e2 0); simpl; intros Heq.
  - injection Heq as Heq. apply zeros_pretty_inj in Heq. lia.
  - exfalso.
    destruct (pretty_N_shape (Z.abs_N e2)) as (a & r & Hp & Ha & _).
    rewrite Hp in Heq.
    destruct (5 - String.length (String a r)); simpl in Heq;
      [injection Heq as <- _; done | done].
  - exfalso.
    destruct (pretty_N_shape (Z.abs_N e1)) as (a & r & Hp & Ha & _).
    rewrite Hp in Heq.
    destruct (5 - String.length (String a r)); simpl in Heq;
      [injection Heq as -> _; done | done].
  - apply zeros_pretty_inj in Heq. lia.
Qed.







End strings.

Lemma rstrip_no_trailing (s : string) (a : ascii) :
  Ascii.eqb a "/" = false → os_path.rstrip (s +:+ String a "") = s +:+ String a "".
Proof.
  intros Ha. induction s as [|b s IH]; simpl.
  - by rewrite Ha.
  - rewrite IH. by destruct s.
Qed.

(** ** Computations *)

Lemma bind_Ok {A B} (m : M A) (f : A → M B) (w w' : World) (a : A) :
  m w = Ok a w' → (m ≫= f) w = f a w'.
Proof. unfold mbind, M_bind. by intros ->. Qed.

Lemma bind_Raise {A B} (m : M A) (f : A → M B) (w w' : World) (e : exn) :
  m w = Raise e w' → (m ≫= f) w = Raise e w'.
Proof. unfold mbind, M_bind. by intros ->. Qed.

(** The projections of the trace. *)
Definition puts (tr : list event) : list pyobj :=
  omap (λ e, match e with EvPut x => Some x | _ => None end) tr.
Definition gets (tr : list event) : list pyobj :=
  omap (λ e, match e with EvGet x => Some x | _ => None end) tr.
Definition dones (tr : list event) : list pyobj :=
  omap (λ e, match e with EvDone x => Some x | _ => None end) tr.
Definition extracted (tr : list event) : list (TarInfo * string) :=
  omap (λ e, match e with EvExtract m p => Some (m, p) | _ => None end) tr.

(** ** [add_files] *)

(** Is there something to move at [f]: a regular file, or the archive when
    [f] is its path. *)
Definition present (w : World) (f : string) : Prop :=
  if decide (f = tar_fp w) then is_Some (tar_pad w) else is_Some (fs w !! f).

#[global] Instance present_dec w f : Decision (present w f).
Proof. unfold present. case_decide; apply _. Defined.

(** The member made of [file] as it is in the filesystem [F]. *)
Definition entry (F : gmap string bytes) (epoch : Z) (file : string)
    : TarInfo :=
  {| name := archname epoch file; data := F !!! file |}.

(** The events of moving [file]; the archive itself is removed without
    being added. *)
Definition moved (F : gmap string bytes) (tfp : string) (epoch : Z)
    (file : string) : list event :=
  if decide (file = tfp) then [EvRemove file]
  else [EvAdd (entry F epoch file); EvRemove file].

(** [w'] is [w] after the files [done] have been moved under [epoch], in
    this order.  As long as the archive is there and is not one of them,
    each has become a member.  Once the archive has been removed, nothing
    is left of it, and what is moved after that is lost. *)
Record archived (epoch : Z) (done : list string) (w w' : World) : Prop := {
  arch_nodup : NoDup done;
  arch_present : Forall (present w) done;
  arch_fs : ∀ p, fs w' !! p
                 = if decide (p ∈ done ∧ p ≠ tar_fp w) then None
                   else fs w !! p;
  arch_tar :
    tar_fp w ∉ done → is_Some (tar_pad w) →
    tar w' = tar w ++ map (entry (fs w) epoch) done ∧ is_Some (tar_pad w');
  arch_lost :
    tar_fp w ∉ done → tar_pad w = None → tar w' = tar w ∧ tar_pad w' = None;
  arch_gone : tar_fp w ∈ done → tar w' = [] ∧ tar_pad w' = None;
  arch_trace :
    trace w' = trace w ++ flat_map (moved (fs w) (tar_fp w) epoch) done;
  arch_dirs : dirs w' = dirs w;
  arch_tar_fp : tar_fp w' = tar_fp w;
  arch_blocks : tar_blocks w' = tar_blocks w;
  arch_queue : queue w' = queue w;
  arch_daemon : daemon w' = daemon w
}.

Lemma archived_nil (epoch : Z) (w : World) : archived epoch [] w w.
Proof.
  split; simpl; rewrite ?app_nil_r; auto using NoDup_nil_2.
  intros H. by apply elem_of_nil in H.
Qed.

(** Moving one file. *)
Lemma move_one (epoch : Z) (file : string) (w : World) :
  match (tarf_add file (archname epoch file) ;; os_remove file) w with
  | Ok _ w2 =>
      present w file
      ∧ (∀ p, fs w2 !! p
              = if decide (p = file ∧ p ≠ tar_fp w) then None else fs w !! p)
      ∧ (if decide (file = tar_fp w) then tar w2 = [] ∧ tar_pad w2 = None
         else match tar_pad w with
              | Some _ => tar w2 = tar w ++ [entry (fs w) epoch file]
                          ∧ is_Some (tar_pad w2)
              | None => tar w2 = tar w ∧ tar_pad w2 = None
              end)
      ∧ trace w2 = trace w ++ moved (fs w) (tar_fp w) epoch file
      ∧ dirs w2 = dirs w ∧ tar_fp w2 = tar_fp w
      ∧ tar_blocks w2 = tar_blocks w
      ∧ queue w2 = queue w ∧ daemon w2 = daemon w
  | Raise e w2 => e = FileNotFoundError file ∧ ¬ present w file ∧ w2 = w
  | Hang _ => False
  end.
Proof.
  unfold mbind, M_bind.
  destruct (decide (file = tar_fp w)) as [Heq|Hne].
  - assert (tarf_add file (archname epoch file) w = Ok tt w) as ->.
    { unfold tarf_add. by rewrite decide_True. }
    unfold os_remove, present, moved. rewrite !decide_True by done.
    destruct (tar_pad w) as [n|] eqn:Hpad.
    + split_and!; simpl; auto.
      intros p. rewrite decide_False; [done |]. by intros [-> ?].
    + split_and!; auto; by intros [? ?].
  - unfold present, moved. rewrite !decide_False by done.
    destruct (fs w !! file) as [c|] eqn:Hc.
    + assert (entry (fs w) epoch file
              = {| name := archname epoch file; data := c |}) as He.
      { unfold entry. f_equal. unfold lookup_total, map_lookup_total.
        by rewrite Hc. }
      rewrite He.
      set (m := {| name := archname epoch file; data := c |}).
      set (w1 := log (EvAdd m)
                   (match tar_pad w with
                    | Some n =>
                        with_pad (Some (n - tar_blocks w m))
                          (with_tar (tar w ++ [m]) w)
                    | None => w
                    end)).
      assert (tarf_add file (archname epoch file) w = Ok tt w1) as ->.
      { unfold tarf_add. by rewrite decide_False, Hc by done. }
      assert (tar_fp w1 = tar_fp w ∧ fs w1 = fs w ∧ dirs w1 = dirs w
              ∧ tar_blocks w1 = tar_blocks w ∧ queue w1 = queue w
              ∧ daemon w1 = daemon w ∧ trace w1 = trace w ++ [EvAdd m])
        as (Htp & Hfs & Hd & Hb & Hq & Hdm & Htr).
      { unfold w1. by destruct (tar_pad w). }
      assert (match tar_pad w with
              | Some _ => tar w1 = tar w ++ [m] ∧ is_Some (tar_pad w1)
              | None => tar w1 = tar w ∧ tar_pad w1 = None
              end) as Htar.
      { unfold w1. destruct (tar_pad w) eqn:E; simpl; rewrite ?E; eauto. }
      clearbody w1.
      unfold os_remove. rewrite Htp, decide_False, Hfs, Hc by done.
      split_and!; simpl; rewrite ?Htr, <- ?app_assoc; auto.
      intros p. destruct (decide (p = file)) as [->|Hp].
      * rewrite decide_True by done. by rewrite lookup_delete_eq.
      * rewrite decide_False by (by intros [? ?]).
        by rewrite lookup_delete_ne.
    + assert (tarf_add file (archname epoch file) w
              = Raise (FileNotFoundError file) w) as ->.
      { unfold tarf_add. by rewrite decide_False, Hc by done. }
      split_and!; auto; by intros [? ?].
Qed.

Lemma entry_ext (F G : gmap string bytes) (epoch : Z) (f : string) :
  F !! f = G !! f → entry F epoch f = entry G epoch f.
Proof.
  intros H. unfold entry. f_equal. unfold lookup_total, map_lookup_total.
  by rewrite H.
Qed.

Lemma moved_ext (F G : gmap string bytes) (tfp : string) (epoch : Z)
    (l : list string) :
  (∀ f, f ∈ l → F !! f = G !! f) →
  flat_map (moved F tfp epoch) l = flat_map (moved G tfp epoch) l.
Proof.
  induction l as [|f l IH]; intros H; simpl; [done |].
  rewrite IH by (intros g Hg; apply H; by right).
  unfold moved. case_decide; [done |].
  by rewrite (entry_ext F G) by (apply H; by left).
Qed.

Lemma archived_cons (epoch : Z) (file : string) (done : list string)
    (w w2 w' : World) :
  (tarf_add file (archname epoch file) ;; os_remove file) w = Ok tt w2 →
  archived epoch done w2 w' →
  archived epoch (file :: done) w w'.
Proof.
  intros Hstep [Hnd Hpr Hf Ht Hl Hg Htr Hd Hp Hb Hq Hdm].
  pose proof (move_one epoch file w) as H1. rewrite Hstep in H1.
  destruct H1 as (Hpres & Hf2 & Ht2 & Htr2 & Hd2 & Hp2 & Hb2 & Hq2 & Hdm2).
  rewrite Hp2 in *.
  assert (file ∉ done) as Hnotin.
  { intros Hin. rewrite Forall_forall in Hpr. specialize (Hpr _ Hin).
    unfold present in Hpr. rewrite Hp2 in Hpr.
    destruct (decide (file = tar_fp w)) as [Heq|Hne].
    - destruct Ht2 as [_ Hnone]. rewrite Hnone in Hpr. by destruct Hpr.
    - rewrite Hf2, decide_True in Hpr by done. by destruct Hpr. }
  assert (∀ g, g ∈ done → fs w2 !! g = fs w !! g) as Hsame.
  { intros g Hin. rewrite Hf2, decide_False; [done |]. intros [-> _]. done. }
  assert (map (entry (fs w2) epoch) done = map (entry (fs w) epoch) done)
    as Hentries.
  { apply map_ext_in. intros g Hin%list_elem_of_In.
    apply entry_ext. auto. }
  split.
  - by constructor.
  - constructor; [done |].
    rewrite Forall_forall in Hpr. apply Forall_forall. intros g Hin.
    specialize (Hpr g Hin). unfold present in *. rewrite Hp2 in Hpr.
    destruct (decide (g = tar_fp w)) as [->|Hg'].
    + destruct (decide (file = tar_fp w)) as [Heq|Hne]; [congruence |].
      destruct (tar_pad w); [done |]. destruct Ht2 as [_ Hn].
      rewrite Hn in Hpr. by destruct Hpr.
    + by rewrite <- Hsame.
  - intros p. rewrite Hf, Hf2.
    destruct (decide (p ∈ done ∧ p ≠ tar_fp w)) as [[Hin Hne]|Hno].
    + rewrite decide_True; [done |]. split; [by right | done].
    + destruct (decide (p = file ∧ p ≠ tar_fp w)) as [[-> Hne]|Hno'].
      * rewrite decide_True; [done |]. split; [by left | done].
      * rewrite decide_False; [done |].
        intros [[->|Hin]%elem_of_cons Hne]; [by apply Hno' | by apply Hno].
  - intros Hout Hsome.
    assert (file ≠ tar_fp w) as Hne by (intros ->; apply Hout; by left).
    assert (tar_fp w ∉ done) as Hout' by (intros ?; apply Hout; by right).
    rewrite decide_False in Ht2 by done.
    destruct (tar_pad w) as [n|]; [| by destruct Hsome].
    destruct Ht2 as [Ht2 Hs2].
    destruct (Ht Hout' Hs2) as [-> ?]. split; [| done].
    by rewrite Ht2, Hentries, <- app_assoc.
  - intros Hout Hnone.
    assert (file ≠ tar_fp w) as Hne by (intros ->; apply Hout; by left).
    assert (tar_fp w ∉ done) as Hout' by (intros ?; apply Hout; by right).
    rewrite decide_False, Hnone in Ht2 by done.
    destruct Ht2 as [Ht2 Hs2]. destruct (Hl Hout' Hs2) as [-> ?].
    by rewrite Ht2.
  - intros [Heq|Hin]%elem_of_cons.
    + rewrite decide_True in Ht2 by done. destruct Ht2 as [Ht2 Hs2].
      assert (tar_fp w ∉ done) as Hout by (by rewrite Heq).
      destruct (Hl Hout Hs2) as [-> ?]. by rewrite Ht2.
    + auto.
  - rewrite Htr, Htr2, <- app_assoc. simpl. do 2 f_equal.
    apply moved_ext. auto.
  - congruence.
  - congruence.
  - congruence.
  - congruence.
  - congruence.
Qed.

(** What [add_files] does: it moves the files in list order, and stops at
    the first one that is not there, or no longer there. *)
Lemma add_files_archived (epoch : Z) (files : list string) (w : World) :
  match add_files epoch files w with
  | Ok _ w' => archived epoch files w w'
  | Raise e w' =>
      ∃ done file rest,
        files = done ++ file :: rest ∧ archived epoch done w w'
        ∧ e = FileNotFoundError file
        ∧ (file ∈ done ∨ ¬ present w file)
  | Hang _ => False
  end.
Proof.
  revert w. induction files as [|file files IH]; intros w.
  { apply archived_nil. }
  unfold add_files. simpl. fold (add_files epoch files).
  pose proof (move_one epoch file w) as H1.
  destruct ((tarf_add file (archname epoch file) ;; os_remove file) w)
    as [[] w2|e w2|w2] eqn:Hstep; [| | done].
  - rewrite (bind_Ok _ _ _ _ _ Hstep).
    specialize (IH w2).
    destruct (add_files epoch files w2) as [[] w'|e w'|w']; [| | done].
    + eapply archived_cons; eauto.
    + destruct IH as (done & f & rest & -> & Harch & -> & Hwhy).
      exists (file :: done), f, rest. split_and!; auto.
      * eapply archived_cons; eauto.
      * destruct Hwhy as [Hin|Hnot]; [left; by right |].
        destruct (decide (f = file)) as [->|Hne]; [left; by left |].
        right. intros Hpres. apply Hnot.
        destruct H1 as (_ & Hf2 & Ht2 & _ & _ & Hp2 & _).
        unfold present in *. rewrite Hp2.
        destruct (decide (f = tar_fp w)) as [->|Hf'].
        -- rewrite decide_False in Ht2 by done.
           destruct (tar_pad w); [by destruct Ht2 | by destruct Hpres].
        -- rewrite Hf2, decide_False; [done |]. by intros [? _].
  - rewrite (bind_Raise _ _ _ _ _ Hstep).
    destruct H1 as (-> & Hnot & ->).
    exists [], file, files. split_and!; auto using archived_nil.
Qed.

(** ** The background process *)

Definition files_of (x : pyobj) : list string :=
  match x with
  | PDict t => files t
  | PStr _ => []
  end.

Definition epoch_of (x : pyobj) : Z :=
  match x with
  | PDict t => epoch t
  | PStr _ => 0%Z
  end.

Lemma py_eq_sentinel (x : pyobj) :
  py_eq x (PStr "break") = true ↔ x = sentinel.
Proof.
  destruct x as [s|t]; simpl.
  - rewrite String.eqb_eq. unfold sentinel. split; congruence.
  - split; [done | discriminate].
Qed.

Definition closes (tr : list event) : list unit :=
  omap (λ e, match e with EvClose => Some tt | _ => None end) tr.

(** Why a turn that takes [x] can fail after moving the files [done]: [x]
    is a string other than the terminal one, or [task_done()] is called
    once too often, or the next file of the task is not there. *)
Definition crash_cause (x : pyobj) (w : World) (done : list string) : Prop :=
  (∃ s, x = PStr s ∧ x ≠ sentinel)
  ∨ unfinished (queue w) = 0
  ∨ ∃ f rest, files_of x = done ++ f :: rest
              ∧ (f ∈ done ∨ ¬ present w f).

(** How a turn that takes the item [x] ends. *)
Inductive ending (x : pyobj) (w w' : World)
    : list string → list event → Prop :=
  | ending_continue n :
      x ≠ sentinel →
      unfinished (queue w) = S n → unfinished (queue w') = n →
      daemon w' = Some Running →
      ending x w w' (files_of x) [EvDone x]
  | ending_break n :
      x = sentinel →
      unfinished (queue w) = S n → unfinished (queue w') = n →
      daemon w' = Some Exiting →
      ending x w w' [] [EvClose; EvDone x]
  | ending_crash done e :
      x ≠ sentinel →
      crash_cause x w done →
      unfinished (queue w') = unfinished (queue w) →
      daemon w' = Some (Crashed e) →
      ending x w w' done []
  | ending_overdone :
      x = sentinel →
      unfinished (queue w) = 0 → unfinished (queue w') = 0 →
      daemon w' = Some (Crashed ValueError) →
      ending x w w' [] [EvClose].

(** One turn with an item at hand, from [w] to [w']: the item [x] is taken,
    the files [done], a prefix of its files, are moved in list order, and
    the turn ends in one of the ways above. *)
Record turned (x : pyobj) (rest : list pyobj) (done : list string)
    (tl : list event) (w w' : World) : Prop := {
  t_ending : ending x w w' done tl;
  t_prefix : done `prefix_of` files_of x;
  t_nodup : NoDup done;
  t_present : Forall (present w) done;
  t_fs : ∀ p, fs w' !! p
              = if decide (p ∈ done ∧ p ≠ tar_fp w) then None else fs w !! p;
  t_tar :
    tar_fp w ∉ done → is_Some (tar_pad w) →
    tar w' = tar w ++ map (entry (fs w) (epoch_of x)) done
    ∧ is_Some (tar_pad w');
  t_lost :
    tar_fp w ∉ done → tar_pad w = None → tar w' = tar w ∧ tar_pad w' = None;
  t_gone : tar_fp w ∈ done → tar w' = [] ∧ tar_pad w' = None;
  t_closed :
    closes tl ≠ [] → is_Some (tar_pad w) → ∃ n, tar_pad w' = Some (S n);
  t_trace :
    trace w'
    = trace w ++ EvGet x
        :: flat_map (moved (fs w) (tar_fp w) (epoch_of x)) done ++ tl;
  t_items : items (queue w') = rest;
  t_dirs : dirs w' = dirs w;
  t_tar_fp : tar_fp w' = tar_fp w;
  t_blocks : tar_blocks w' = tar_blocks w
}.

Lemma close_facts (w : World) :
  tar (tarf_close w) = tar w ∧ fs (tarf_close w) = fs w
  ∧ dirs (tarf_close w) = dirs w ∧ tar_fp (tarf_close w) = tar_fp w
  ∧ tar_blocks (tarf_close w) = tar_blocks w
  ∧ queue (tarf_close w) = queue w ∧ daemon (tarf_close w) = daemon w
  ∧ trace (tarf_close w) = trace w ++ [EvClose]
  ∧ (tar_pad w = None → tar_pad (tarf_close w) = None)
  ∧ (is_Some (tar_pad w) → ∃ n, tar_pad (tarf_close w) = Some (S n)).
Proof.
  unfold tarf_close. destruct (tar_pad w) as [n|] eqn:Hp; simpl;
    rewrite ?Hp; split_and!; auto; try done.
  - intros _. unfold end_blocks.
    destruct (Nat.max_spec n (2 + (20 - (tar_size w + 2) mod 20) mod 20))
      as [[_ ->]|[Hle ->]]; [by eexists |].
    destruct n as [|n]; [simpl in Hle; lia | by eexists].
Qed.

Lemma daemon_turn_running (w : World) (x : pyobj) (rest : list pyobj) :
  daemon w = Some Running →
  items (queue w) = x :: rest →
  ∃ done tl, turned x rest done tl w (daemon_turn w).
Proof.
  intros Hrun Hitems. unfold daemon_turn, queue_get.
  rewrite Hrun, Hitems. unfold daemon_iteration.
  set (w1 := log (EvGet x) (with_queue _ w)).
  destruct (py_eq x (PStr "break")) eqn:Hx.
  - (* the terminal condition *)
    apply py_eq_sentinel in Hx. unfold mret, M_ret, queue_task_done.
    destruct (close_facts w1)
      as (Ht & Hf & Hd & Hp & Hb & Hq & Hdm & Htr & Hnone & Hsome).
    set (w2 := tarf_close w1) in *. clearbody w2.
    unfold w1 in *. simpl in *. clear w1. rewrite Hq. simpl.
    assert (∀ p, fs w !! p
                 = if decide (p ∈ @nil string ∧ p ≠ tar_fp w) then None
                   else fs w !! p) as Hfs.
    { intros p. rewrite decide_False; [done |].
      intros [H _]. by apply elem_of_nil in H. }
    destruct (unfinished (queue w)) as [|n] eqn:Hn; simpl.
    + exists [], [EvClose]. split; simpl;
        rewrite ?Ht, ?Hf, ?Hd, ?Hp, ?Hb, ?Hq, ?Htr, ?app_nil_r,
          <- ?app_assoc; auto using NoDup_nil_2, prefix_nil.
      * apply ending_overdone; simpl; rewrite ?Hq; auto.
      * intros _ Hs. split; [done |]. destruct (Hsome Hs) as [m ->]. eauto.
      * intros H. by apply elem_of_nil in H.
    + exists [], [EvClose; EvDone x]. split; simpl;
        rewrite ?Ht, ?Hf, ?Hd, ?Hp, ?Hb, ?Hq, ?Htr, ?app_nil_r,
          <- ?app_assoc; auto using NoDup_nil_2, prefix_nil.
      * eapply ending_break; simpl; rewrite ?Hq; eauto.
      * intros _ Hs. split; [done |]. destruct (Hsome Hs) as [m ->]. eauto.
      * intros H. by apply elem_of_nil in H.
  - assert (x ≠ sentinel) as Hne.
    { intros Heq. apply py_eq_sentinel in Heq. congruence. }
    destruct x as [s|t].
    + (* a string is not a mapping *)
      unfold add_files_kw. simpl. exists [], []. split; simpl;
        rewrite ?app_nil_r; auto using NoDup_nil_2, prefix_nil; try done.
      * eapply ending_crash; simpl; eauto. left. eauto.
      * intros H. by apply elem_of_nil in H.
    + unfold add_files_kw.
      pose proof (add_files_archived (epoch t) (files t) w1) as Hadd.
      destruct (add_files (epoch t) (files t) w1) as [[] w2|e w2|w2] eqn:Hr;
        [| | done].
      * (* all the files were moved *)
        destruct Hadd as [Hnd Hpr Hf Ht Hl Hg Htr Hd Hp Hb Hq Hdm].
        rewrite (bind_Ok _ _ _ _ _ Hr).
        unfold mbind, M_bind, mret, M_ret, queue_task_done.
        rewrite Hq. subst w1. simpl in *.
        destruct (unfinished (queue w)) as [|n] eqn:Hn; simpl.
        -- exists (files t), []. split; simpl;
             rewrite ?Htr, ?Hq, ?app_nil_r, <- ?app_assoc; simpl; auto;
             try done.
           eapply ending_crash; simpl; eauto; [by right; left |].
           by rewrite Hq.
        -- exists (files t), [EvDone (PDict t)]. split; simpl;
             rewrite ?Htr, ?Hq, ?app_nil_r, <- ?app_assoc; simpl; auto;
             try done.
           eapply ending_continue; simpl; eauto. by rewrite Hdm.
      * (* a file was missing *)
        destruct Hadd as (done & f & rest' & Hfiles & Harch & -> & Hwhy).
        destruct Harch as [Hnd Hpr Hf Ht Hl Hg Htr Hd Hp Hb Hq Hdm].
        rewrite (bind_Raise _ _ _ _ _ Hr). subst w1. simpl in *.
        exists done, []. split; simpl;
          rewrite ?Htr, ?Hq, ?app_nil_r, <- ?app_assoc; simpl; auto;
          try done.
        -- eapply ending_crash; simpl; eauto; [| by rewrite Hq].
           right; right. exists f, rest'. split; [done |]. exact Hwhy.
        -- rewrite Hfiles. by apply prefix_app_r.
Qed.

(** A process with nothing to do: it is past its start, and either has
    left its loop or finds the queue empty. *)
Definition idle (w : World) : Prop :=
  daemon w ≠ Some Starting
  ∧ (daemon w ≠ Some Running ∨ items (queue w) = []).

Lemma daemon_turn_idle (w : World) :
  idle w →
  daemon_turn w = w
  ∨ (daemon w = Some Exiting ∧ daemon_turn w = with_daemon (Some Returned) w)
  ∨ (daemon w = Some Dying ∧ daemon_turn w = with_daemon (Some Killed) w).
Proof.
  unfold idle, daemon_turn, queue_get.
  destruct (daemon w) as [[]|]; intros [Hs [H|H]]; try done; auto.
  by rewrite H; left.
Qed.

(** When the archive can be opened for appending: it is not there yet and
    can be created, or it ends in a block of zeros. *)
Definition openable (w : World) : Prop :=
  match tar_pad w with
  | None => open_w (tar_fp w) w = None
  | Some n => n ≠ 0
  end.

(** The first turn: the archive is opened, or the process ends. *)
Lemma daemon_turn_starting (w : World) :
  daemon w = Some Starting →
  (openable w
   ∧ daemon_turn w
     = with_daemon (Some Running)
         (match tar_pad w with
          | None => with_pad (Some 0) w
          | Some _ => w
          end))
  ∨ (¬ openable w
     ∧ ∃ e, daemon_turn w = with_daemon (Some (Crashed e)) w
            ∧ (tar_pad w = Some 0 ∧ e = ReadError
               ∨ tar_pad w = None ∧ open_w (tar_fp w) w = Some e)).
Proof.
  intros Hst. unfold daemon_turn, tarfile_open_a, openable. rewrite Hst.
  destruct (tar_pad w) as [[|n]|] eqn:Hp.
  - right. split; [by intros H |]. exists ReadError. auto.
  - left. done.
  - destruct (open_w (tar_fp w) w) as [e|] eqn:Ho.
    + right. split; [done |]. exists e. auto.
    + left. done.
Qed.

Lemma starting_facts (w : World) :
  daemon w = Some Starting →
  let w' := daemon_turn w in
  fs w' = fs w ∧ dirs w' = dirs w ∧ tar w' = tar w ∧ tar_fp w' = tar_fp w
  ∧ tar_blocks w' = tar_blocks w ∧ queue w' = queue w ∧ trace w' = trace w
  ∧ (daemon w' = Some Running ∧ is_Some (tar_pad w')
     ∨ ∃ e, daemon w' = Some (Crashed e) ∧ tar_pad w' = tar_pad w)
  ∧ (is_Some (tar_pad w) → tar_pad w' = tar_pad w).
Proof.
  intros Hst w'. unfold w'.
  destruct (daemon_turn_starting w Hst) as [[_ ->]|[_ (e & -> & _)]].
  - destruct (tar_pad w) eqn:Hp; simpl; rewrite ?Hp; split_and!; eauto.
    by intros [? ?].
  - simpl. split_and!; eauto.
Qed.

(** The members handed to [tarf.add], in order. *)
Definition adds (tr : list event) : list TarInfo :=
  omap (λ e, match e with EvAdd m => Some m | _ => None end) tr.

Lemma adds_moved (F : gmap string bytes) (tfp : string) (epoch : Z)
    (done : list string) :
  adds (flat_map (moved F tfp epoch) done)
  = map (entry F epoch) (filter (λ f, f ≠ tfp) done).
Proof.
  induction done as [|f done IH]; [done |].
  simpl. unfold adds in *. rewrite omap_app, IH, filter_cons.
  unfold moved. destruct (decide (f = tfp)) as [->|Hne]; simpl.
  - by rewrite decide_False by (by intros H).
  - by rewrite decide_True by done.
Qed.


(** ** The session invariant *)

(** The queue and the acknowledgements. *)
Record queued (w : World) : Prop := {
  q_count :
    unfinished (queue w) + length (dones (trace w))
    = length (puts (trace w));
  q_puts : puts (trace w) = gets (trace w) ++ items (queue w);
  q_dones : dones (trace w) `prefix_of` gets (trace w);
  q_running : daemon w = Some Running → dones (trace w) = gets (trace w);
  q_starting : daemon w = Some Starting → gets (trace w) = [];
  q_closed :
    closes (trace w) ≠ [] →
    daemon w ≠ Some Starting ∧ daemon w ≠ Some Running;
  q_started : daemon w ≠ None;
  q_shut : sentinel ∈ gets (trace w) → closes (trace w) ≠ []
}.




Lemma moved_silent (F : gmap string bytes) (tfp : string) (epoch : Z)
    (done : list string) :
  puts (flat_map (moved F tfp epoch) done) = []
  ∧ gets (flat_map (moved F tfp epoch) done) = []
  ∧ dones (flat_map (moved F tfp epoch) done) = []
  ∧ extracted (flat_map (moved F tfp epoch) done) = []
  ∧ closes (flat_map (moved F tfp epoch) done) = [].
Proof.
  induction done as [|f done IH]; simpl; [done |].
  unfold moved at 1 3 5 7 9. case_decide; simpl; auto.
Qed.

Lemma trace_after_turn (tr : list event) (x : pyobj) (F : gmap string bytes)
    (tfp : string) (epoch : Z) (done : list string) (tl : list event) :
  let tr' := tr ++ EvGet x :: flat_map (moved F tfp epoch) done ++ tl in
  puts tr' = puts tr ++ puts tl
  ∧ gets tr' = gets tr ++ x :: gets tl
  ∧ dones tr' = dones tr ++ dones tl
  ∧ extracted tr' = extracted tr ++ extracted tl
  ∧ closes tr' = closes tr ++ closes tl.
Proof.
  destruct (moved_silent F tfp epoch done) as (Hp & Hg & Hd & He & Hc).
  unfold puts, gets, dones, extracted, closes in *. simpl.
  rewrite !omap_app. simpl. rewrite !omap_app, Hp, Hg, Hd, He, Hc. done.
Qed.

Lemma ending_silent (x : pyobj) (w w' : World) (done : list string)
    (tl : list event) :
  ending x w w' done tl →
  puts tl = [] ∧ gets tl = [] ∧ extracted tl = [] ∧ adds tl = [].
Proof. by destruct 1. Qed.

Lemma queued_enter (w : World) : queued (__enter__ w).
Proof.
  split; simpl; auto using prefix_nil; try done.
  intros H. by apply elem_of_nil in H.
Qed.

Lemma queued_put (w : World) (x : pyobj) :
  queued w → queued (world_of (queue_put x w)).
Proof.
  intros [Hc Hp Hd Hr Hs Hcl Hst Hsen].
  unfold queue_put. destruct (daemon w) as [st|] eqn:Hdm; [| done].
  unfold puts, gets, dones, closes in *.
  split; simpl; unfold puts, gets, dones, closes;
    rewrite ?omap_app; simpl; rewrite ?app_nil_r, ?length_app; simpl;
    rewrite ?Hdm; try done.
  - lia.
  - by rewrite Hp, app_assoc.
Qed.


Lemma queued_with_fs (w : World) (f : gmap string bytes) :
  queued w → queued (with_fs f w).
Proof. intros []. by split. Qed.

Lemma queued_turn (w : World) : queued w → queued (daemon_turn w).
Proof.
  intros Hinv.
  destruct (decide (daemon w = Some Starting)) as [Hst|Hnst].
  { destruct (starting_facts w Hst)
      as (_ & _ & _ & _ & _ & Hq & Htr & Hd & _).
    destruct Hinv as [Hc Hp Hdn Hr Hs Hcl Hstd Hsen].
    split; rewrite ?Hq, ?Htr; auto.
    - intros _. rewrite (Hs Hst) in *.
      by apply prefix_nil_inv in Hdn.
    - intros H. by destruct (Hcl H).
    - destruct Hd as [[-> _]|(e & -> & _)]; done. }
  destruct (decide (daemon w = Some Running)) as [Hrun|Hnot];
    [destruct (items (queue w)) as [|x rest] eqn:Hitems |].
  2: {
    destruct (daemon_turn_running w x rest Hrun Hitems)
      as (done & tl & [Hend _ _ _ _ _ _ _ _ Htr' Hi' _ _ _]).
    destruct Hinv as [Hc Hp Hd Hr Hs Hcl Hst Hsen].
    specialize (Hr Hrun).
    destruct (trace_after_turn (trace w) x (fs w) (tar_fp w) (epoch_of x)
                done tl) as (Hputs & Hgets & Hdones & _ & Hcloses).
    rewrite <- Htr' in Hputs, Hgets, Hdones, Hcloses.
    destruct (ending_silent _ _ _ _ _ Hend) as (Hpt & Hgt & _).
    rewrite Hpt, Hgt, ?app_nil_r in *.
    split.
    - rewrite Hputs, Hdones, length_app, <- Hc.
      destruct Hend as [n ? Hn Hn' _|n ? Hn Hn' _|? ? _ _ Hn' _|? Hn Hn' _];
        rewrite Hn', ?Hn; simpl; lia.
    - by rewrite Hputs, Hgets, Hi', Hp, Hitems, <- app_assoc.
    - rewrite Hdones, Hgets, Hr.
      destruct Hend; simpl; rewrite ?app_nil_r;
        [done | by subst | by apply prefix_app_r | by apply prefix_app_r].
    - intros Hrun'. rewrite Hdones, Hgets, Hr.
      destruct Hend; [done | congruence | congruence | congruence].
    - intros Hst'. destruct Hend; congruence.
    - intros Hne. rewrite Hcloses in Hne.
      destruct Hend; try (split; congruence).
      simpl in Hne. rewrite app_nil_r in Hne. by destruct (Hcl Hne).
    - destruct Hend; congruence.
    - rewrite Hgets, Hcloses.
      intros [Hin|Hx%list_elem_of_singleton]%elem_of_app.
      + intros Heq. apply app_eq_nil in Heq as [Heq _]. by apply (Hsen Hin).
      + symmetry in Hx.
        destruct Hend; try done; by destruct (closes (trace w)).
  }
  - destruct (daemon_turn_idle w) as [->|[[_ ->]|[_ ->]]]; auto;
      try (split; [done | by right]);
      destruct Hinv; split; simpl; auto; try done.
  - destruct (daemon_turn_idle w) as [->|[[_ ->]|[_ ->]]]; auto;
      try (split; [done | by left]);
      destruct Hinv; split; simpl; auto; try done.
Qed.












(** Once nothing is unfinished, everything put has been taken and
    acknowledged, and all the files of every task have been moved. *)
Lemma queued_drained (w : World) :
  queued w →
  unfinished (queue w) = 0 →
  items (queue w) = []
  ∧ dones (trace w) = puts (trace w)
  ∧ gets (trace w) = puts (trace w).
Proof.
  intros [Hc Hp Hd Hr Hs Hcl Hst Hsen] Hzero.
  rewrite Hzero in Hc. simpl in Hc.
  pose proof (prefix_length _ _ Hd) as Hle.
  pose proof (f_equal length Hp) as Hlp. rewrite length_app in Hlp.
  assert (items (queue w) = []) as Hitems.
  { apply length_zero_iff_nil. lia. }
  rewrite Hitems, app_nil_r in Hp.
  assert (dones (trace w) = gets (trace w)) as Hdg.
  { destruct Hd as [k Hk]. rewrite Hk, length_app in Hle, Hlp.
    assert (k = []) as -> by (apply length_zero_iff_nil; simpl in *; lia).
    by rewrite app_nil_r in Hk. }
  split_and!; [done | congruence | done].
Qed.


(** ** What the steps leave alone *)

Lemma daemon_turn_frame (w : World) :
  dirs (daemon_turn w) = dirs w
  ∧ tar_fp (daemon_turn w) = tar_fp w
  ∧ tar_blocks (daemon_turn w) = tar_blocks w
  ∧ puts (trace (daemon_turn w)) = puts (trace w)
  ∧ (daemon w ≠ None → daemon (daemon_turn w) ≠ None).
Proof.
  destruct (decide (daemon w = Some Starting)) as [Hst|Hnst].
  { destruct (starting_facts w Hst)
      as (_ & -> & _ & -> & -> & _ & -> & Hdm & _).
    split_and!; auto. intros _.
    destruct Hdm as [[-> _]|(e & -> & _)]; done. }
  destruct (decide (daemon w = Some Running)) as [Hrun|Hnot];
    [destruct (items (queue w)) as [|x rest] eqn:Hitems |].
  2: {
    destruct (daemon_turn_running w x rest Hrun Hitems)
      as (done & tl & [Hend _ _ _ _ _ _ _ _ Htr _ Hd Hp Hb]).
    destruct (trace_after_turn (trace w) x (fs w) (tar_fp w) (epoch_of x)
                done tl) as (Hputs & _).
    rewrite Htr, Hputs. split_and!; auto.
    - destruct Hend; simpl; by rewrite app_nil_r.
    - destruct Hend; congruence. }
  - destruct (daemon_turn_idle w) as [->|[[_ ->]|[_ ->]]]; auto.
    split; [done | by right].
  - destruct (daemon_turn_idle w) as [->|[[_ ->]|[_ ->]]]; auto.
    split; [done | by left].
Qed.



(** A process that is gone stays gone, and takes nothing more. *)
Definition dead (w : World) : Prop :=
  ∃ st, daemon w = Some st ∧ alive st = false.

Lemma dead_turn (w : World) : dead w → daemon_turn w = w.
Proof.
  intros (st & Hst & Hal). unfold daemon_turn. rewrite Hst. by destruct st.
Qed.

Lemma dead_iter (n : nat) (w : World) : dead w → Nat.iter n daemon_turn w = w.
Proof.
  intros Hd. induction n as [|n IH]; simpl; [done |].
  rewrite IH. by apply dead_turn.
Qed.

Lemma dead_put (x : pyobj) (w : World) :
  dead w → dead (world_of (queue_put x w)).
Proof.
  intros (st & Hst & Hal). unfold queue_put. rewrite Hst. simpl.
  by exists st.
Qed.

(** ** Programs as schedules *)

Definition reach (w w' : World) : Prop := ∃ acts, w' = run acts w.

Lemma reach_refl (w : World) : reach w w.
Proof. by exists []. Qed.

Lemma reach_trans (w1 w2 w3 : World) : reach w1 w2 → reach w2 w3 → reach w1 w3.
Proof.
  intros [a1 ->] [a2 ->]. exists (a1 ++ a2). unfold run. by rewrite foldl_app.
Qed.

Lemma run_snoc (acts : list action) (a : action) (w : World) :
  run (acts ++ [a]) w = act (run acts w) a.
Proof. unfold run. by rewrite foldl_app. Qed.

Lemma reach_act (w : World) (a : action) : reach w (act w a).
Proof. by exists [a]. Qed.

Lemma reach_iter (n : nat) (w : World) : reach w (Nat.iter n daemon_turn w).
Proof.
  induction n as [|n IH]; simpl; [apply reach_refl |].
  eapply reach_trans; [exact IH | apply (reach_act _ Turn)].
Qed.

Lemma reach_tar_files (epoch : Z) (filepaths : list string) (w : World) :
  reach w (world_of (tar_files epoch filepaths w)).
Proof.
  unfold tar_files. destruct (daemon w) as [st|] eqn:Hd; simpl.
  - destruct (alive st); simpl; [| apply reach_refl].
    apply (reach_act _ (Put _)).
  - apply reach_refl.
Qed.

(** ** [queue.join()] *)

Lemma idle_turn (w : World) :
  idle w → queue (daemon_turn w) = queue w ∧ idle (daemon_turn w).
Proof.
  intros Hi. destruct (daemon_turn_idle w Hi) as [->|[[_ ->]|[_ ->]]];
    [done | |]; (split; [done |]); split; simpl; auto; done.
Qed.

Lemma idle_iter (m : nat) (w : World) :
  idle w → queue (Nat.iter m daemon_turn w) = queue w
           ∧ idle (Nat.iter m daemon_turn w).
Proof.
  intros Hi. induction m as [|m [IHq IHi]]; simpl; [done |].
  destruct (idle_turn _ IHi) as [-> ?]. done.
Qed.

Lemma idle_dec (w : World) :
  idle w
  ∨ daemon w = Some Starting
  ∨ ∃ x rest, daemon w = Some Running ∧ items (queue w) = x :: rest.
Proof.
  unfold idle.
  destruct (decide (daemon w = Some Starting)); [by right; left |].
  destruct (decide (daemon w = Some Running)); [| by left; split; [| left]].
  destruct (items (queue w)) as [|x rest];
    [by left; split; [| right] | right; right; eauto].
Qed.

(** The turns after which the background process has nothing left to do. *)
Definition backlog (w : World) : nat :=
  match daemon w with
  | Some Starting => S (length (items (queue w)))
  | Some Running => length (items (queue w))
  | _ => 0
  end.

Lemma backlog_idle (w : World) : backlog w = 0 → idle w.
Proof.
  unfold backlog, idle.
  destruct (daemon w) as [[]|]; try done;
    try (intros _; split; [done | by left]).
  intros H%length_zero_iff_nil. split; [done | by right].
Qed.

Lemma backlog_turn (w : World) :
  ¬ idle w → (S (backlog (daemon_turn w)) ≤ backlog w)%nat.
Proof.
  intros Hni. destruct (idle_dec w) as [?|[Hst|(x & rest & Hr & Hit)]];
    [done | |].
  - destruct (starting_facts w Hst)
      as (_ & _ & _ & _ & _ & Hq & _ & Hdm & _).
    unfold backlog. rewrite Hst, Hq.
    destruct Hdm as [[-> _]|(e & -> & _)]; lia.
  - destruct (daemon_turn_running w x rest Hr Hit)
      as (done & tl & [Hend _ _ _ _ _ _ _ _ _ Hi _ _ _]).
    unfold backlog. rewrite Hr, Hit, Hi. simpl.
    destruct Hend as [? ? ? ? ->|? ? ? ? ->|? ? ? ? ? ->|? ? ? ->]; lia.
Qed.

(** [join()] returns as soon as nothing is unfinished, and otherwise never:
    the count stays above zero whatever the number of turns. *)
Lemma join_turns_spec (n : nat) (w : World) :
  match join_turns n w with
  | Ok _ w' =>
      ∃ m, w' = Nat.iter m daemon_turn w ∧ unfinished (queue w') = 0
  | Raise _ _ => False
  | Hang _ =>
      (backlog w ≤ n)%nat →
      ∀ m, unfinished (queue (Nat.iter m daemon_turn w)) ≠ 0
  end.
Proof.
  revert w. induction n as [|n IH]; intros w; simpl.
  - destruct (Nat.eqb_spec (unfinished (queue w)) 0) as [Hz|Hnz].
    + by exists 0.
    + intros Hlen m. assert (idle w) as Hi by (apply backlog_idle; lia).
      by destruct (idle_iter m w Hi) as [-> _].
  - destruct (Nat.eqb_spec (unfinished (queue w)) 0) as [Hz|Hnz].
    + by exists 0.
    + specialize (IH (daemon_turn w)).
      destruct (join_turns n (daemon_turn w)) as [[] w'|e w'|w'].
      * destruct IH as (m & -> & Hz). exists (S m).
        by rewrite Nat.iter_succ_r.
      * done.
      * intros Hlen m. destruct (decide (idle w)) as [Hi|Hni].
        -- by destruct (idle_iter m w Hi) as [-> _].
        -- destruct m as [|m]; [done |]. rewrite Nat.iter_succ_r.
           apply IH. pose proof (backlog_turn w Hni). lia.
Qed.

Lemma queue_join_spec (w : World) :
  match queue_join w with
  | Ok _ w' =>
      ∃ m, w' = Nat.iter m daemon_turn w ∧ unfinished (queue w') = 0
  | Raise _ _ => False
  | Hang _ => ∀ m, unfinished (queue (Nat.iter m daemon_turn w)) ≠ 0
  end.
Proof.
  unfold queue_join.
  pose proof (join_turns_spec (S (length (items (queue w)))) w) as H.
  destruct (join_turns _ w); auto. apply H.
  unfold backlog. destruct (daemon w) as [[]|]; lia.
Qed.

(** ** [_await_queue] *)

Lemma iter_frame (n : nat) (w : World) :
  puts (trace (Nat.iter n daemon_turn w)) = puts (trace w)
  ∧ (daemon w ≠ None → daemon (Nat.iter n daemon_turn w) ≠ None).
Proof.
  induction n as [|n [IHp IHd]]; simpl; [done |].
  destruct (daemon_turn_frame (Nat.iter n daemon_turn w))
    as (_ & _ & _ & -> & Hd).
  auto.
Qed.

(** [_await_queue] step by step, from a machine with a started process. *)
Lemma await_queue_unfold (k j : nat) (w : World) (st : status) :
  daemon w = Some st →
  let w1 := log (EvPut sentinel)
              (with_queue {| items := items (queue w) ++ [sentinel];
                             unfinished := S (unfinished (queue w)) |} w) in
  let w2 := Nat.iter k daemon_turn w1 in
  queue_put sentinel w = Ok tt w1
  ∧ ∃ st2, daemon w2 = Some st2
    ∧ _await_queue k j w
      = if alive st2 then
          match queue_join w2 with
          | Ok _ w3 => daemon_kill (Nat.iter j daemon_turn w3)
          | Raise e w3 => Raise e w3
          | Hang w3 => Hang w3
          end
        else Raise (Exception "Something is wrong") w2.
Proof.
  intros Hst w1 w2.
  assert (queue_put sentinel w = Ok tt w1) as Hput.
  { unfold queue_put. by rewrite Hst. }
  split; [done |].
  destruct (daemon w2) as [st2|] eqn:Hst2.
  2: { destruct (iter_frame k w1) as [_ Hd].
       destruct Hd; [simpl; by rewrite Hst | exact Hst2]. }
  exists st2. split; [done |].
  unfold _await_queue. fold sentinel.
  rewrite (bind_Ok _ _ _ _ _ Hput).
  unfold mbind, M_bind, concurrently, is_alive. fold w2. rewrite Hst2.
  destruct (alive st2); [| done].
  by destruct (queue_join w2).
Qed.

(** * The specification, claim by claim *)

(** ** Entry names *)

Lemma pretty_Z_nonneg (e : Z) : (0 ≤ e)%Z → pretty (Z.to_N e) = pretty e.
Proof. destruct e; [done | done | lia]. Qed.

(** C4 — Entry naming.  Each member that [add_files] appends for a file is
    named by the epoch in decimal, padded with zeros on the left to a width
    of five, then ["/"], then the basename of the file: so are the members
    it hands to [tarf.add], one for each file but the archive itself, and,
    when the archive is still there afterwards, the members the archive has
    gained, one for each file.  Hence two files with the same basename,
    archived under two distinct epochs, get distinct names. *)
Theorem entry_naming :
  (∀ (epoch : Z) (files : list string) (w w' : World),
     add_files epoch files w = Ok tt w' →
     (∃ new, adds (trace w') = adds (trace w) ++ new
             ∧ map name new
               = map (λ file, format_05d epoch +:+ "/"
                              +:+ os_path.basename file)
                   (filter (λ f, f ≠ tar_fp w) files))
     ∧ (is_Some (tar_pad w') →
        ∃ new, tar w' = tar w ++ new
               ∧ map name new
                 = map (λ file, format_05d epoch +:+ "/"
                                +:+ os_path.basename file) files))
  ∧ (∀ epoch : Z, (0 ≤ epoch)%Z →
       ∃ k, format_05d epoch = zeros k +:+ pretty epoch
            ∧ String.length (format_05d epoch)
              = Nat.max 5 (String.length (pretty epoch)))
  ∧ (∀ (e1 e2 : Z) (f1 f2 : string),
       os_path.basename f1 = os_path.basename f2 →
       e1 ≠ e2 →
       archname e1 f1 ≠ archname e2 f2).
Proof.
  split_and!.
  - intros epoch files w w' Hadd.
    pose proof (add_files_archived epoch files w) as H.
    rewrite Hadd in H. destruct H as [_ _ _ Ht Hl Hg Htr _ _ _ _ _].
    split.
    + exists (map (entry (fs w) epoch) (filter (λ f, f ≠ tar_fp w) files)).
      split.
      * rewrite Htr. unfold adds at 1. rewrite omap_app. f_equal.
        apply adds_moved.
      * by rewrite map_map.
    + intros Hsome.
      destruct (decide (tar_fp w ∈ files)) as [Hin|Hout].
      { destruct (Hg Hin) as [_ Hnone]. rewrite Hnone in Hsome.
        by destruct Hsome. }
      destruct (tar_pad w) as [n|] eqn:Hp.
      2: { destruct (Hl Hout eq_refl) as [_ Hnone]. rewrite Hnone in Hsome.
           by destruct Hsome. }
      destruct (Ht Hout) as [Htar _]; [by eexists |].
      eexists. split; [exact Htar |]. by rewrite map_map.
  - intros epoch He. rewrite format_05d_nonneg by done.
    rewrite pretty_Z_nonneg by done.
    eexists. split; [done |].
    rewrite length_append, length_zeros. lia.
  - intros e1 e2 f1 f2 Hb Hne. unfold archname. rewrite Hb. intros Heq.
    apply Hne, format_05d_inj. by apply append_inv_r in Heq.
Qed.

Lemma entry_naming_witness :
  archname 3 "run/model.pt" = "00003/model.pt"
  ∧ archname 3 "run/model.pt" ≠ archname 4 "old/model.pt".
Proof.
  split; [reflexivity |].
  apply (proj2 (proj2 entry_naming) 3%Z 4%Z "run/model.pt" "old/model.pt").
  - reflexivity.
  - lia.
Defined.

(** ** The extractor *)

(** An archive that can be read: the file is there, and holds at least one
    block. *)
Definition readable (w : World) : Prop :=
  match tar_pad w with
  | None => False
  | Some n => n ≠ 0 ∨ tar w ≠ []
  end.

#[global] Instance readable_dec w : Decision (readable w).
Proof. unfold readable. destruct (tar_pad w); apply _. Defined.

Lemma open_r_readable (tar_fp : string) (w : World) :
  readable w → tarfile_open_r tar_fp w = Ok (tar w) w.
Proof.
  unfold readable, tarfile_open_r.
  destruct (tar_pad w) as [[|n]|]; [| done | done].
  destruct (tar w); [| done]. by intros [?|?].
Qed.

Lemma open_r_unreadable (tar_fp : string) (w : World) :
  ¬ readable w →
  ∃ e, tarfile_open_r tar_fp w = Raise e w
       ∧ (e = FileNotFoundError tar_fp ∨ e = ReadError).
Proof.
  unfold readable, tarfile_open_r.
  destruct (tar_pad w) as [[|n]|]; eauto.
  - destruct (tar w); eauto. intros H. destruct H. by right.
  - intros H. destruct H. by left.
Qed.










(** Nothing is in the way of the members [sel] below [d]: the place of
    each is not a directory, the directories on its way are not regular
    files of the machine, and no member is to be put where another needs a
    directory. *)
Definition free (w : World) (d : string) (sel : list TarInfo) : Prop :=
  Forall (λ m,
    target d m ≠ ""
    ∧ (target d m ∉ dirs w)
    ∧ Forall (λ a, is_file w a = false) (os_path.parents (target d m))
    ∧ Forall (λ m', target d m ∉ os_path.parents (target d m')) sel) sel.

#[global] Instance free_dec w d sel : Decision (free w d sel).
Proof. unfold free. apply _. Defined.






(** [extract], once the archive is open. *)
Lemma extract_unfold (tar_fp : string) (epoch : Z) (path : option string)
    (w : World) :
  let pre := format_05d epoch +:+ "/" in
  let destination :=
    default (fst (os_path.splitext (os_path.basename tar_fp))) path in
  let selected :=
    List.filter (λ m, os_path.startswith (name m) pre) (tar w) in
  readable w →
  extract tar_fp epoch path w
  = match for_ selected (λ m, tarf_extract m destination) w with
    | Ok _ w' => Ok (os_path.join destination pre) w'
    | Raise e w' => Raise e w'
    | Hang w' => Hang w'
    end.
Proof.
  intros pre destination selected Hr. unfold extract.
  unfold mbind at 1. unfold M_bind at 1.
  rewrite (open_r_readable tar_fp w Hr). fold pre. fold selected.
  replace (match path with
           | Some p => p
           | None => (os_path.splitext (os_path.basename tar_fp)).1
           end) with destination by (by destruct path).
  unfold mbind, M_bind, mret, M_ret.
  by destruct (for_ selected _ w) as [[] ?| |].
Qed.

(** C5, as stated, fails: the default destination of an archive whose file
    name has no extension is the archive itself, a regular file, below
    which nothing can be extracted. *)
Lemma extractor_contract_counterexample :
  ¬ (∀ (epoch : Z) (path : option string) (w : World),
       readable w →
       let pre := format_05d epoch +:+ "/" in
       let destination :=
         default (fst (os_path.splitext (os_path.basename (tar_fp w))))
           path in
       ∃ w', extract (tar_fp w) epoch path w
             = Ok (os_path.join destination pre) w').
Proof.
  intros H.
  destruct (H 1%Z None
              (__init__ "ckpt" ∅ ∅
                 [ {| name := "00001/a.pt"; data := [Byte.x61] |} ]))
    as (w' & Hrun).
  - vm_compute. by left.
  - vm_compute in Hrun. discriminate.
Qed.



(** An archive with no member of the epoch. *)
Definition no_member (epoch : Z) (w : World) : Prop :=
  readable w
  ∧ ∀ m, m ∈ tar w →
         os_path.startswith (name m) (format_05d epoch +:+ "/") = false.

(** C8, as stated, fails: extracting an epoch that has no member from an
    archive, into a filesystem where the destination does not exist yet,
    returns a path that is not a directory afterwards. *)
Lemma empty_epoch_counterexample :
  ¬ (∀ (tar_fp : string) (epoch : Z) (path : option string) (w : World),
       no_member epoch w →
       ∃ p w', extract tar_fp epoch path w = Ok p w' ∧ isdir w' p = true).
Proof.
  intros H.
  destruct (H "my.tar" 42%Z None
              (__init__ "my.tar" ∅ ∅
                 [ {| name := "00001/a.pt"; data := [Byte.x61] |} ]))
    as (p & w' & Hrun & Hdir).
  - split; [vm_compute; by left |].
    intros m Hm. apply list_elem_of_singleton in Hm as ->. reflexivity.
  - vm_compute in Hrun. injection Hrun as <- <-. vm_compute in Hdir.
    discriminate.
Qed.

(** C8, amended — Empty-epoch extraction.  When no member of the archive
    belongs to the epoch, [extract] does not raise: it returns the
    destination joined with the epoch prefix and leaves the machine as it
    was.  It creates nothing, so the path returned is a directory after the
    call exactly if it was one before. *)
Theorem empty_epoch_extraction (tar_fp : string) (epoch : Z)
    (path : option string) (w : World) :
  no_member epoch w →
  let destination :=
    default (fst (os_path.splitext (os_path.basename tar_fp))) path in
  let p := os_path.join destination (format_05d epoch +:+ "/") in
  extract tar_fp epoch path w = Ok p w
  ∧ ∀ w', extract tar_fp epoch path w = Ok p w' → isdir w' p = isdir w p.
Proof.
  intros [Hr Hno] destination p.
  assert (extract tar_fp epoch path w = Ok p w) as Hrun.
  { rewrite (extract_unfold tar_fp epoch path w Hr).
    replace (List.filter _ (tar w)) with (@nil TarInfo); [done |].
    symmetry. induction (tar w) as [|m l IH]; simpl; [done |].
    rewrite Hno by left. apply IH. intros m' Hm'. apply Hno. by right. }
  split; [done |].
  intros w' Hrun'. rewrite Hrun in Hrun'. by injection Hrun' as <-.
Qed.

Lemma empty_epoch_extraction_witness :
  extract "my.tar" 42 (Some "out")
    (__init__ "my.tar" ∅ ∅ [ {| name := "00001/a.pt"; data := [Byte.x61] |} ])
  = Ok "out/00042/"
      (__init__ "my.tar" ∅ ∅
         [ {| name := "00001/a.pt"; data := [Byte.x61] |} ]).
Proof.
  refine (proj1 (empty_epoch_extraction "my.tar" 42 (Some "out")
                   (__init__ "my.tar" ∅ ∅
                      [ {| name := "00001/a.pt"; data := [Byte.x61] |} ])
                   _)).
  split; [vm_compute; by left |].
  intros m Hm. apply list_elem_of_singleton in Hm as ->. reflexivity.
Defined.

(** ** [tar_files] *)

(** [__exit__] step by step. *)
Lemma exit_Ok_inv (exc : option exn) (k j : nat) (w w' : World) :
  __exit__ exc k j w = Ok tt w' →
  ∃ st w1 w2 w3 m st3,
    daemon w = Some st
    ∧ queue_put sentinel w = Ok tt w1
    ∧ w2 = Nat.iter k daemon_turn w1
    ∧ is_alive w2 = Ok true w2
    ∧ queue_join w2 = Ok tt w3
    ∧ w3 = Nat.iter m daemon_turn w2
    ∧ unfinished (queue w3) = 0
    ∧ daemon (Nat.iter j daemon_turn w3) = Some st3
    ∧ w' = log EvKill
             (with_daemon (Some (if alive st3 then Dying else st3))
                (Nat.iter j daemon_turn w3)).
Proof.
  unfold __exit__. intros Hexit.
  destruct (daemon w) as [st|] eqn:Hst.
  2: { unfold _await_queue, queue_put in Hexit. unfold mbind, M_bind in Hexit.
       by rewrite Hst in Hexit. }
  destruct (await_queue_unfold k j w st Hst) as (Hput & st2 & Hst2 & Heq).
  rewrite Heq in Hexit. destruct (alive st2) eqn:Hal; [| done].
  set (w1 := log (EvPut sentinel) _) in *.
  pose proof (queue_join_spec (Nat.iter k daemon_turn w1)) as Hjoin.
  destruct (queue_join _) as [[] w3|e w3|w3] eqn:Hj; [| done | done].
  destruct Hjoin as (m & Hm & Hz).
  unfold daemon_kill in Hexit.
  destruct (daemon (Nat.iter j daemon_turn w3)) as [st3|] eqn:Hst3;
    [| done].
  injection Hexit as <-.
  exists st, w1, (Nat.iter k daemon_turn w1), w3, m, st3.
  split_and!; auto. unfold is_alive. by rewrite Hst2, Hal.
Qed.

(** After [__exit__] has returned, the process has been sent its signal: it
    is gone, or will be at its next turn. *)
Lemma exit_Ok_dying (exc : option exn) (k j : nat) (w w' : World) :
  __exit__ exc k j w = Ok tt w' →
  (daemon w' = Some Dying ∨ dead w') ∧ dead (daemon_turn w').
Proof.
  intros (st & w1 & w2 & w3 & m & st3 & _ & _ & _ & _ & _ & _ & _ & Hst3
          & ->)%exit_Ok_inv.
  unfold dead, daemon_turn. simpl.
  destruct st3; simpl; split; eauto; try (right; by eexists).
Qed.




(** C9, as stated, fails: [tar_files] accepts a negative epoch and a file
    that does not exist. *)
Lemma validation_counterexample :
  ¬ (∀ (epoch : Z) (filepaths : list string) (w : World),
       (epoch < 0)%Z ∨ (∃ f, f ∈ filepaths ∧ ¬ present w f) →
       ∃ e w', tar_files epoch filepaths w = Raise e w').
Proof.
  intros H.
  destruct (H (-1)%Z ["missing.pt"] (__enter__ (__init__ "my.tar" ∅ ∅ [])))
    as (e & w' & Hraise).
  - by left.
  - vm_compute in Hraise. discriminate.
Qed.

(** C9, amended — No validation at construction.  While the process is
    alive [tar_files] puts the task on the queue whatever the epoch and
    the file paths are: it checks neither the sign of the epoch nor the
    existence of the files.  A missing file is met only when the background
    process consumes the task, and ends that process. *)
Theorem validation_deferred (epoch : Z) (filepaths : list string)
    (w : World) :
  (∀ st, daemon w = Some st → alive st = true →
         ∃ w', tar_files epoch filepaths w = Ok tt w'
               ∧ items (queue w')
                 = items (queue w)
                   ++ [PDict {| epoch := epoch; files := filepaths |}])
  ∧ (∀ rest f,
       daemon w = Some Running →
       items (queue w)
       = PDict {| epoch := epoch; files := filepaths |} :: rest →
       f ∈ filepaths → ¬ present w f →
       ∃ e, daemon (daemon_turn w) = Some (Crashed e)
            ∧ dones (trace (daemon_turn w)) = dones (trace w)).
Proof.
  split.
  - intros st Hd Ha. unfold tar_files, queue_put. rewrite Hd, Ha. simpl.
    eexists. split; [done |]. by simpl.
  - intros rest f Hrun Hitems Hin Hnone.
    destruct (daemon_turn_running w _ rest Hrun Hitems)
      as (done & tl & [Hend _ _ Hex _ _ _ _ _ Htr _ _ _ _]).
    destruct (trace_after_turn (trace w)
                (PDict {| epoch := epoch; files := filepaths |})
                (fs w) (tar_fp w) epoch done tl) as (_ & _ & Hdones & _).
    simpl in Htr. rewrite <- Htr in Hdones.
    inversion Hend as [n Hne Hn Hn' Hd| |fl e Hne Hor Hn Hd|]; subst.
    + rewrite Forall_forall in Hex. exfalso. by apply Hnone, Hex.
    + discriminate.
    + exists e. split; [done |]. rewrite Hdones. simpl. by rewrite app_nil_r.
    + discriminate.
Qed.

Lemma validation_deferred_witness :
  ∃ w', tar_files (-1) ["missing.pt"] (__enter__ (__init__ "my.tar" ∅ ∅ []))
        = Ok tt w'
        ∧ items (queue w')
          = [PDict {| epoch := -1; files := ["missing.pt"] |}].
Proof.
  apply (proj1 (validation_deferred (-1) ["missing.pt"]
                  (__enter__ (__init__ "my.tar" ∅ ∅ []))) Starting);
    reflexivity.
Defined.

(** ** Deactivation *)

Lemma run_body_returns (body : list stmt) (w : World) :
  match run_body body w with
  | Hang _ => False
  | _ => True
  end.
Proof.
  revert w. unfold run_body.
  induction body as [|s body IH]; intros w; simpl; [done |].
  unfold mbind, M_bind.
  assert (match exec s w with Hang _ => False | _ => True end) as Hs.
  { destruct s as [e f|p c|]; simpl; [| | done].
    - unfold tar_files, queue_put. destruct (daemon w) as [st|]; [| done].
      by destruct (alive st).
    - unfold write_file. by destruct (open_w p w). }
  destruct (exec s w) as [[] w'|e w'|w']; [apply IH | done | done].
Qed.

Lemma queued_iter (n : nat) (w : World) :
  queued w → queued (Nat.iter n daemon_turn w).
Proof. intros H. induction n; simpl; auto using queued_turn. Qed.

Lemma queued_exec (s : stmt) (w : World) :
  queued w → queued (world_of (exec s w)).
Proof.
  intros Hq. destruct s as [e f|p c|]; simpl.
  - unfold tar_files. destruct (daemon w) as [st|] eqn:Hd; [| done].
    destruct (alive st); simpl; [| done]. by apply queued_put.
  - unfold write_file. destruct (open_w p w); [done |].
    by apply queued_with_fs.
  - by apply queued_turn.
Qed.

Lemma queued_run_body (body : list stmt) (w : World) :
  queued w → queued (world_of (run_body body w)).
Proof.
  revert w. unfold run_body.
  induction body as [|s body IH]; intros w Hq; simpl; [done |].
  unfold mbind, M_bind. pose proof (queued_exec s w Hq) as Hs.
  destruct (exec s w) as [[] w'|e w'|w']; simpl in *; auto.
Qed.

(** C6 — Deactivation drains on every exit path.  However the body of the
    [with] statement ends, normally or by an exception, [__exit__] runs from
    the state the body is left in.  It puts the Sentinel behind everything
    already on the queue, then looks whether the process is alive.  If it
    is, [join()] blocks until nothing is unfinished: then all that was put,
    the Sentinel last, has been acknowledged, and the process is sent the
    signal that stops it, so that it is gone at its next turn if it was not
    already; when that never happens the call blocks for ever.  If it is not
    alive, [__exit__] raises instead of joining. *)
Theorem deactivation_drains (w0 : World) (body : list stmt)
    (exc : option exn) (k j : nat) :
  let w := world_of (run_body body (__enter__ w0)) in
  let w1 := world_of (queue_put sentinel w) in
  let w2 := Nat.iter k daemon_turn w1 in
  (∃ exc', with_TarCheckpoints body exc k j w0
           = match __exit__ exc' k j w with
             | Ok _ w4 => match exc' with
                          | None => Ok tt w4
                          | Some e => Raise e w4
                          end
             | Raise e w4 => Raise e w4
             | Hang w4 => Hang w4
             end)
  ∧ items (queue w1) = items (queue w) ++ [sentinel]
  ∧ ∃ st, daemon w2 = Some st
    ∧ ∀ exc',
        if alive st then
          match queue_join w2 with
          | Ok _ w3 =>
              unfinished (queue w3) = 0
              ∧ puts (trace w3) = puts (trace w) ++ [sentinel]
              ∧ dones (trace w3) = puts (trace w3)
              ∧ ∃ w4, __exit__ exc' k j w = Ok tt w4
                      ∧ (daemon w4 = Some Dying ∨ dead w4)
                      ∧ dead (daemon_turn w4)
                      ∧ last (trace w4) = Some EvKill
          | Raise _ _ => False
          | Hang w3 =>
              __exit__ exc' k j w = Hang w3
              ∧ ∀ m, unfinished (queue (Nat.iter m daemon_turn w2)) ≠ 0
          end
        else __exit__ exc' k j w = Raise (Exception "Something is wrong") w2.
Proof.
  intros w w1 w2.
  pose proof (queued_run_body body _ (queued_enter w0)) as Hq. fold w in Hq.
  destruct (daemon w) as [st|] eqn:Hst.
  2: { by destruct (q_started _ Hq). }
  destruct (await_queue_unfold k j w st Hst) as (Hput & st2 & Hst2 & Heq).
  assert (w1 = log (EvPut sentinel)
                 (with_queue {| items := items (queue w) ++ [sentinel];
                                unfinished := S (unfinished (queue w)) |} w))
    as Hw1.
  { unfold w1. by rewrite Hput. }
  rewrite <- Hw1 in Hst2, Heq. fold w2 in Hst2, Heq.
  split_and!.
  - unfold with_TarCheckpoints. unfold mbind, M_bind.
    pose proof (run_body_returns body (__enter__ w0)) as Hret.
    unfold w. destruct (run_body body (__enter__ w0)) as [[] w'|e w'|w'].
    + destruct exc as [e|]; simpl.
      * exists (Some e). by destruct (__exit__ _ _ _ _).
      * exists None. by destruct (__exit__ _ _ _ _) as [[] ?| |].
    + exists (Some e). simpl. by destruct (__exit__ _ _ _ _).
    + done.
  - by rewrite Hw1.
  - exists st2. split; [done |]. intros exc'.
    pose proof (exit_Ok_dying exc' k j w) as Hdying.
    unfold __exit__ in *. rewrite Heq in *.
    destruct (alive st2); [| done].
    pose proof (queue_join_spec w2) as Hjoin.
    destruct (queue_join w2) as [[] w3|e w3|w3]; [| done | done].
    destruct Hjoin as (m & Hw3 & Hzero).
    assert (puts (trace w3) = puts (trace w) ++ [sentinel]) as Hputs.
    { rewrite Hw3. destruct (iter_frame m w2) as [-> _].
      unfold w2. destruct (iter_frame k w1) as [-> _].
      rewrite Hw1. simpl. unfold puts. by rewrite omap_app. }
    assert (queued w3) as Hq3.
    { rewrite Hw3. apply queued_iter. unfold w2. apply queued_iter.
      unfold w1. by apply queued_put. }
    destruct (queued_drained _ Hq3 Hzero) as (_ & Hdones & _).
    split_and!; try done.
    unfold daemon_kill in *.
    destruct (daemon (Nat.iter j daemon_turn w3)) as [st3|] eqn:Hst3.
    + eexists. split; [done |].
      destruct (Hdying _ eq_refl) as [? ?]. split_and!; [done | done |].
      simpl. apply last_snoc.
    + exfalso. destruct (iter_frame j w3) as [_ Hd]. apply Hd; [| done].
      apply (q_started _ Hq3).
Qed.

Lemma deactivation_drains_witness :
  let w0 := __init__ "my.tar" (<["a.pt" := [Byte.x61]]> ∅) ∅ [] in
  ∃ exc', with_TarCheckpoints [Call 0 ["a.pt"]] (Some TypeError) 0 0 w0
          = match __exit__ exc' 0 0
                    (world_of (run_body [Call 0 ["a.pt"]] (__enter__ w0))) with
            | Ok _ w4 => match exc' with
                         | None => Ok tt w4
                         | Some e => Raise e w4
                         end
            | Raise e w4 => Raise e w4
            | Hang w4 => Hang w4
            end.
Proof.
  intros w0.
  exact (proj1 (deactivation_drains w0 [Call 0 ["a.pt"]] (Some TypeError)
                  0 0)).
Defined.

(** ** The terminal condition *)

(** The files of the tasks are there, each named once. *)
Definition serviceable (ts : list Task) (w : World) : Prop :=
  NoDup (flat_map files ts)
  ∧ Forall (present w) (flat_map files ts).

Lemma turn_task (t : Task) (rest : list pyobj) (w : World) :
  daemon w = Some Running →
  items (queue w) = PDict t :: rest →
  unfinished (queue w) ≠ 0 →
  serviceable [t] w →
  daemon (daemon_turn w) = Some Running
  ∧ items (queue (daemon_turn w)) = rest
  ∧ S (unfinished (queue (daemon_turn w))) = unfinished (queue w)
  ∧ dones (trace (daemon_turn w)) = dones (trace w) ++ [PDict t]
  ∧ turned (PDict t) rest (files t) [EvDone (PDict t)] w (daemon_turn w).
Proof.
  intros Hrun Hitems Hnz [Hnd Hex]. simpl in Hnd, Hex.
  rewrite app_nil_r in Hnd, Hex.
  destruct (daemon_turn_running w _ rest Hrun Hitems)
    as (done & tl & Hturned).
  pose proof Hturned as [Hend _ _ _ _ _ _ _ _ Htr Hi _ _ _].
  destruct (trace_after_turn (trace w) (PDict t) (fs w) (tar_fp w) (epoch t)
              done tl) as (_ & _ & Hdones & _).
  simpl in Htr. rewrite <- Htr in Hdones.
  destruct Hend as [n Hne Hn Hn' Hd|n Hx|fl e Hne Hcause Hn Hd|Hx].
  - simpl in *. split_and!; auto. lia.
  - discriminate.
  - exfalso. destruct Hcause as [(s & Hs & _)|[Hz|(f & r & Hfl & Hf')]].
    + discriminate.
    + done.
    + simpl in Hfl. rewrite Hfl in Hnd, Hex.
      apply NoDup_app in Hnd as (_ & Hdisj & _).
      apply Forall_app in Hex as [_ Hex].
      apply Forall_cons in Hex as [Hc _].
      destruct Hf' as [Hin|Hnone]; [| done].
      apply (Hdisj f Hin). by left.
  - discriminate.
Qed.

(** What a turn does not move is still there. *)
Lemma turned_present (x : pyobj) (rest : list pyobj) (done : list string)
    (tl : list event) (w w' : World) (f : string) :
  turned x rest done tl w w' → f ∉ done → present w f → present w' f.
Proof.
  intros [_ _ _ _ Hf Ht _ Hg _ _ _ _ Hp _] Hout. unfold present.
  rewrite Hp. destruct (decide (f = tar_fp w)) as [->|Hne].
  - intros Hs. by destruct (Ht Hout Hs).
  - rewrite Hf. rewrite decide_False; [done | tauto].
Qed.

Lemma turn_sentinel (rest : list pyobj) (w : World) :
  daemon w = Some Running →
  items (queue w) = sentinel :: rest →
  unfinished (queue w) ≠ 0 →
  daemon (daemon_turn w) = Some Exiting
  ∧ trace (daemon_turn w)
    = trace w ++ [EvGet sentinel; EvClose; EvDone sentinel]
  ∧ items (queue (daemon_turn w)) = rest.
Proof.
  intros Hrun Hitems Hnz.
  destruct (daemon_turn_running w _ rest Hrun Hitems)
    as (done & tl & [Hend _ _ _ _ _ _ _ _ Htr Hi _ _ _]).
  destruct Hend as [n Hne|n Hx Hn Hn' Hd|fl e Hne|Hx Hz]; done.
Qed.

Lemma exiting_settles (m : nat) (w : World) :
  daemon w = Some Exiting →
  trace (Nat.iter m daemon_turn w) = trace w
  ∧ queue (Nat.iter m daemon_turn w) = queue w.
Proof.
  intros Hex. destruct m as [|m]; [done |].
  rewrite Nat.iter_succ_r.
  assert (daemon_turn w = with_daemon (Some Returned) w) as ->.
  { unfold daemon_turn. by rewrite Hex. }
  rewrite dead_iter; [done |]. by exists Returned.
Qed.

Lemma daemon_serves (ts : list Task) :
  ∀ w : World,
    daemon w = Some Running →
    items (queue w) = map PDict ts ++ [sentinel] →
    (length (items (queue w)) ≤ unfinished (queue w))%nat →
    serviceable ts w →
    (∀ n, (n ≤ length ts)%nat →
          daemon (Nat.iter n daemon_turn w) = Some Running
          ∧ dones (trace (Nat.iter n daemon_turn w))
            = dones (trace w) ++ map PDict (take n ts))
    ∧ daemon (Nat.iter (S (length ts)) daemon_turn w) = Some Exiting
    ∧ trace (Nat.iter (S (length ts)) daemon_turn w)
      = trace (Nat.iter (length ts) daemon_turn w)
        ++ [EvGet sentinel; EvClose; EvDone sentinel]
    ∧ dones (trace (Nat.iter (S (length ts)) daemon_turn w))
      = dones (trace w) ++ map PDict ts ++ [sentinel].
Proof.
  induction ts as [|t ts IH]; intros w Hrun Hitems Hlen [Hnd Hex].
  - simpl in *. rewrite Hitems in Hlen. simpl in Hlen.
    destruct (turn_sentinel [] w Hrun Hitems) as (Hd & Htr & _); [lia |].
    split_and!; auto.
    + intros n Hn. replace n with 0 by lia. simpl. by rewrite app_nil_r.
    + rewrite Htr. unfold dones. rewrite omap_app. done.
  - simpl in Hitems. rewrite Hitems in Hlen. simpl in Hlen, Hnd, Hex.
    apply NoDup_app in Hnd as (Hnd1 & Hdisj & Hnd2).
    apply Forall_app in Hex as [Hex1 Hex2].
    destruct (turn_task t _ w Hrun Hitems) as (Hd & Hi & Hu & Hdn & Hturn).
    { lia. }
    { split; simpl; by rewrite app_nil_r. }
    destruct (IH (daemon_turn w)) as (Hsteps & Hexit & Htr & Hdones); auto.
    { rewrite Hi. lia. }
    { split; [done |]. apply Forall_forall. intros f Hin.
      eapply turned_present; [exact Hturn | |].
      - intros Hin'. by apply (Hdisj f Hin').
      - rewrite Forall_forall in Hex2. auto. }
    split_and!.
    + intros [|n] Hn; simpl.
      * by rewrite app_nil_r.
      * change (daemon_turn (Nat.iter n daemon_turn w))
          with (Nat.iter (S n) daemon_turn w).
        rewrite Nat.iter_succ_r.
        destruct (Hsteps n) as [-> ->]; [simpl in Hn; lia |].
        by rewrite Hdn, <- app_assoc.
    + change (length (t :: ts)) with (S (length ts)).
      by rewrite Nat.iter_succ_r.
    + change (length (t :: ts)) with (S (length ts)).
      rewrite (Nat.iter_succ_r (S (length ts))), Htr.
      by rewrite (Nat.iter_succ_r (length ts)).
    + change (length (t :: ts)) with (S (length ts)).
      rewrite Nat.iter_succ_r, Hdones, Hdn. simpl. by rewrite <- app_assoc.
Qed.

(** A session in which the background process has opened the archive, and
    one task was put, then the Sentinel. *)
Definition one_task_session (F : gmap string bytes) (t : Task) : World :=
  world_of (queue_put sentinel
              (world_of (tar_files (epoch t) (files t)
                           (daemon_turn
                              (__enter__ (__init__ "my.tar" F ∅ [])))))).

(** C10, as stated, fails: a task naming a file that is not there ends the
    background process, although the item taken is not the terminal one;
    the task is not acknowledged and the process does not go on to the
    Sentinel. *)
Lemma sentinel_counterexample :
  ¬ (∀ (ts : list Task) (w : World),
       daemon w = Some Running →
       items (queue w) = map PDict ts ++ [sentinel] →
       unfinished (queue w) = S (length ts) →
       daemon (Nat.iter (length ts) daemon_turn w) = Some Running
       ∧ dones (trace (Nat.iter (S (length ts)) daemon_turn w))
         = dones (trace w) ++ map PDict ts ++ [sentinel]).
Proof.
  intros H.
  destruct (H [ {| epoch := 0; files := ["missing.pt"] |} ]
              (one_task_session ∅ {| epoch := 0; files := ["missing.pt"] |}))
    as [Hrun _]; [reflexivity | reflexivity | reflexivity |].
  vm_compute in Hrun. discriminate.
Qed.

(** C10, amended — Unambiguous sentinel.  The loop is left by [break]
    exactly when the item taken equals ["break"], and no task dictionary
    built by [tar_files] equals it.  So for every sequence of tasks whose
    files are there, each named once, followed by the Sentinel, the
    background process moves the files of each task, acknowledges it and
    goes on; on the Sentinel it closes the archive, then acknowledges the
    Sentinel, once, and acknowledges nothing after that. *)
Theorem sentinel_unambiguous :
  (∀ (x : pyobj) (w : World),
     (∃ w', daemon_iteration x w = Ok Break w') ↔ x = sentinel)
  ∧ (∀ (epoch : Z) (filepaths : list string),
       py_eq (PDict {| epoch := epoch; files := filepaths |}) sentinel
       = false)
  ∧ (∀ (ts : list Task) (w : World),
       daemon w = Some Running →
       items (queue w) = map PDict ts ++ [sentinel] →
       (length (items (queue w)) ≤ unfinished (queue w))%nat →
       serviceable ts w →
       (∀ n, (n ≤ length ts)%nat →
             daemon (Nat.iter n daemon_turn w) = Some Running
             ∧ dones (trace (Nat.iter n daemon_turn w))
               = dones (trace w) ++ map PDict (take n ts))
       ∧ daemon (Nat.iter (S (length ts)) daemon_turn w) = Some Exiting
       ∧ trace (Nat.iter (S (length ts)) daemon_turn w)
         = trace (Nat.iter (length ts) daemon_turn w)
           ++ [EvGet sentinel; EvClose; EvDone sentinel]
       ∧ ∀ m, dones (trace (Nat.iter m daemon_turn
                              (Nat.iter (S (length ts)) daemon_turn w)))
              = dones (trace w) ++ map PDict ts ++ [sentinel]).
Proof.
  split_and!.
  - intros x w. rewrite <- py_eq_sentinel. unfold daemon_iteration.
    destruct (py_eq x (PStr "break")).
    + split; [done |]. intros _. by exists w.
    + split; [| done]. intros [w' Hw'].
      unfold mbind, M_bind in Hw'.
      destruct (add_files_kw x w) as [[] w1|e w1|w1]; [| done | done].
      by destruct (queue_task_done x w1).
  - done.
  - intros ts w Hrun Hitems Hlen Hserv.
    destruct (daemon_serves ts w Hrun Hitems Hlen Hserv)
      as (Hsteps & Hexit & Htr & Hdones).
    split_and!; auto.
    intros m. by destruct (exiting_settles m _ Hexit) as [-> _].
Qed.

Lemma sentinel_unambiguous_witness :
  let t := {| epoch := 3; files := ["a.pt"] |} in
  let w := one_task_session (<["a.pt" := [Byte.x61]]> ∅) t in
  daemon (Nat.iter 2 daemon_turn w) = Some Exiting
  ∧ dones (trace (Nat.iter 1 daemon_turn w)) = [PDict t].
Proof.
  intros t w.
  destruct (proj2 (proj2 sentinel_unambiguous) [t] w)
    as (Hsteps & Hexit & _).
  - reflexivity.
  - reflexivity.
  - vm_compute. lia.
  - split; simpl.
    + repeat constructor. intros Hin. by apply elem_of_nil in Hin.
    + repeat constructor. by exists [Byte.x61].
  - split; [exact Hexit |].
    destruct (Hsteps 1) as [_ Hd]; [simpl; lia |]. exact Hd.
Defined.

(** ** Order in the archive *)




(** ** A session that ends normally *)













(** C1, as stated, fails: a task that names the archive itself is taken and
    acknowledged, and deactivation completes normally, but [tarf.add] skips
    the archive and [os.remove] deletes it, so the file is in no archive
    afterwards. *)
Lemma no_data_loss_counterexample :
  ¬ (∀ (w0 : World) (body : list stmt) (exc : option exn) (k j : nat)
       (w w3 : World),
       run_body body (__enter__ w0) = Ok tt w →
       __exit__ exc k j w = Ok tt w3 →
       ∀ (e : Z) (fl : list string) (f : string),
         Call e fl ∈ body → f ∈ fl →
         ∃ c, {| name := format_05d e +:+ "/" +:+ os_path.basename f;
                 data := c |} ∈ tar w3).
Proof.
  intros H.
  set (w0 := __init__ "my.tar" ∅ ∅
               [ {| name := "00000/a.pt"; data := [Byte.x61] |} ]).
  set (body := [Call 1 ["my.tar"]]).
  set (w := world_of (run_body body (__enter__ w0))).
  set (w3 := world_of (__exit__ None 0 0 w)).
  assert (run_body body (__enter__ w0) = Ok tt w) as Hbody
    by (vm_compute; reflexivity).
  assert (__exit__ None 0 0 w = Ok tt w3) as Hexit
    by (vm_compute; reflexivity).
  destruct (H w0 body None 0 0 w w3 Hbody Hexit 1%Z ["my.tar"] "my.tar")
    as [c Hc].
  - by left.
  - by left.
  - assert (tar w3 = []) as Hnil by (vm_compute; reflexivity).
    rewrite Hnil in Hc. by apply elem_of_nil in Hc.
Qed.



(** ** Round trip *)









